(** * react-markdown-with-mdx: the [withMdx] wrapper and the [mdxComponent] helper

    A shallow embedding of [src/index.ts] and of the earlier revision of
    [withMdx] kept next to the test suite.  The wrapper only composes
    configuration: it reads five properties of its props object, builds new
    arrays and records from them and hands a new props object to
    [createElement].  Objects live in a store, so that object identity and the
    absence of writes to caller-owned objects can be stated.  Parsing,
    tree transformation and rendering belong to the imported libraries and
    are not modelled. *)

From stdpp Require Import base option list strings sorting gmap.
From Stdlib Require Import ZArith NArith Ascii.

Open Scope string_scope.

(** ** Values and the object store *)

Definition loc := positive.

(** JavaScript values as far as this module handles them.  Function objects
    (plugins, components) are atoms named by the binding that introduces them;
    arrays and plain objects live in the store. *)
Inductive value : Type :=
| VUndefined
| VNull
| VBool (b : bool)
| VNum (n : Z)
| VStr (s : string)
| VFun (f : string)
| VRef (l : loc).

(** An array is the list of its elements; a plain object is the list of its
    own enumerable string-keyed properties in creation order. *)
Inductive obj : Type :=
| OArray (elems : list value)
| ORecord (fields : list (string * value)).

Abbreviation fields := (list (string * value)).
Abbreviation heap := (gmap loc obj).

#[global] Instance value_eq_dec : EqDecision value.
Proof. solve_decision. Defined.

#[global] Instance obj_eq_dec : EqDecision obj.
Proof. solve_decision. Defined.

(** ** Outcomes of a computation over the store

    [Throw] is a JavaScript exception carrying the thrown value.  [Stuck]
    marks an input outside the declared TypeScript types (or a dangling
    reference); the model says nothing about those. *)
Inductive outcome (A : Type) : Type :=
| Ok (a : A) (h : heap)
| Throw (e : value) (h : heap)
| Stuck.
Arguments Ok {A} a h.
Arguments Throw {A} e h.
Arguments Stuck {A}.

Definition M (A : Type) : Type := heap → outcome A.

Definition ret {A} (a : A) : M A := λ h, Ok a h.

Definition bind {A B} (m : M A) (k : A → M B) : M B :=
  λ h, match m h with
       | Ok a h' => k a h'
       | Throw e h' => Throw e h'
       | Stuck => Stuck
       end.

Definition throw {A} (e : value) : M A := λ h, Throw e h.

Notation "x <- m ;; k" := (bind m (λ x, k))
  (at level 100, m at next level, right associativity,
   format "'[v' x  <-  m  ;;  '/' k ']'").

(** [new] objects get a location not yet in the store. *)
Definition alloc (o : obj) : M value :=
  λ h, let l := fresh (dom h) in Ok (VRef l) (<[l := o]> h).

Definition read_array (v : value) : M (list value) :=
  λ h, match v with
       | VRef l => match h !! l with
                   | Some (OArray xs) => Ok xs h
                   | _ => Stuck
                   end
       | _ => Stuck
       end.

Definition read_record (v : value) : M fields :=
  λ h, match v with
       | VRef l => match h !! l with
                   | Some (ORecord fs) => Ok fs h
                   | _ => Stuck
                   end
       | _ => Stuck
       end.

(** ** Property access on plain objects *)

(** [o.k]: the value of own property [k], [undefined] when there is none. *)
Fixpoint get_prop (k : string) (fs : fields) : value :=
  match fs with
  | [] => VUndefined
  | (k', v) :: fs' => if decide (k' = k) then v else get_prop k fs'
  end.

(** Defining property [k]: an existing property keeps its place and gets the
    new value, a new one is created last. *)
Fixpoint set_prop (k : string) (v : value) (fs : fields) : fields :=
  match fs with
  | [] => [(k, v)]
  | (k', v') :: fs' =>
      if decide (k' = k) then (k, v) :: fs' else (k', v') :: set_prop k v fs'
  end.

(** *** Own property order

    Enumeration of own keys lists the array indices (canonical decimal
    numerals below 2^32 - 1) in ascending numeric order, then the other keys
    in creation order. *)
Definition digit_of (c : ascii) : option N :=
  let n := N_of_ascii c in
  if ((48 <=? n) && (n <=? 57))%N then Some (n - 48)%N else None.

Fixpoint parse_digits (acc : N) (s : string) : option N :=
  match s with
  | EmptyString => Some acc
  | String c s' =>
      match digit_of c with
      | Some d => parse_digits (acc * 10 + d)%N s'
      | None => None
      end
  end.

Definition array_index (s : string) : option N :=
  match s with
  | EmptyString => None
  | String c s' =>
      if decide (c = "0"%char) then
        (if decide (s' = EmptyString) then Some 0%N else None)
      else
        match parse_digits 0 s with
        | Some n => if (n <? 4294967295)%N then Some n else None
        | None => None
        end
  end.

Definition index_entries (fs : fields) : list (N * (string * value)) :=
  omap (λ e, match array_index e.1 with
             | Some n => Some (n, e)
             | None => None
             end) fs.

Definition index_le (a b : N * (string * value)) : Prop := (a.1 ≤ b.1)%N.

#[global] Instance index_le_dec a b : Decision (index_le a b).
Proof. unfold index_le. apply _. Defined.

Definition own_entries (fs : fields) : fields :=
  (merge_sort index_le (index_entries fs)).*2
  ++ filter (λ e, array_index e.1 = None) fs.

Definition own_keys (fs : fields) : list string := (own_entries fs).*1.

(** ** The operators the module uses *)

Definition nullish (v : value) : bool :=
  match v with
  | VUndefined | VNull => true
  | _ => false
  end.

(** ToBoolean. *)
Definition truthy (v : value) : bool :=
  match v with
  | VUndefined | VNull => false
  | VBool b => b
  | VNum n => negb (n =? 0)%Z
  | VStr s => negb (bool_decide (s = ""))
  | VFun _ | VRef _ => true
  end.

(** [...(v ?? [])] inside an array literal: the elements contributed. *)
Definition spread_or_empty (v : value) : M (list value) :=
  if nullish v then ret [] else read_array v.

(** [{ ...target, ...v }]: [undefined] and [null] contribute nothing; an
    object contributes its own properties, in own-key order. *)
Definition merge_fields (target src : fields) : fields :=
  foldl (λ acc e, set_prop e.1 e.2 acc) target (own_entries src).

Definition object_spread (target : fields) (v : value) : M fields :=
  if nullish v then ret target
  else src <- read_record v ;; ret (merge_fields target src).

(** [Object.keys(v)] for a plain object: a new array of its own keys. *)
Definition Object_keys (v : value) : M value :=
  src <- read_record v ;;
  alloc (OArray (VStr <$> own_keys src)).

(** The rest element of an object pattern: a new object holding the own
    properties not named in the pattern. *)
Definition rest_props (named : list string) (fs : fields) : fields :=
  filter (λ e, e.1 ∉ named) (own_entries fs).

(** ** React elements

    [createElement(type, props)] is external; the element records the call. *)
Record ReactElement : Type := mkElement {
  el_type : value;
  el_props : value;
}.

Definition createElement (type props : value) : M ReactElement :=
  ret (mkElement type props).

(** ** Imported bindings *)

Definition remarkMdx : value := VFun "remarkMdx".
Definition remarkUnravelMdx : value := VFun "remarkUnravelMdx".
Definition rehypeMdxElements : value := VFun "rehypeMdxElements".

(** ** [withMdx] *)

Definition named_props : list string :=
  ["components"; "remarkPlugins"; "remarkMdxPlugins"; "rehypePlugins";
   "remarkRehypeOptions"].

(** [components ? Object.keys(components) : undefined] *)
Definition allowedComponents (components : value) : M value :=
  if truthy components then Object_keys components else ret VUndefined.

Definition ReactMarkdownWithMdx (MarkdownComponent : value) (arg : value)
  : M ReactElement :=
  (* parameter pattern *)
  a <- read_record arg ;;
  let components := get_prop "components" a in
  let remarkPlugins := get_prop "remarkPlugins" a in
  let remarkMdxPlugins := get_prop "remarkMdxPlugins" a in
  let rehypePlugins := get_prop "rehypePlugins" a in
  let remarkRehypeOptions := get_prop "remarkRehypeOptions" a in
  props <- alloc (ORecord (rest_props named_props a)) ;;
  (* mergedRemarkPlugins *)
  user_remark <- spread_or_empty remarkPlugins ;;
  user_mdx <- spread_or_empty remarkMdxPlugins ;;
  mergedRemarkPlugins <-
    alloc (OArray ([remarkMdx] ++ user_remark ++ [remarkUnravelMdx] ++ user_mdx)) ;;
  (* mergedRehypePlugins *)
  allowed <- allowedComponents components ;;
  plugin_options <- alloc (ORecord [("allowedElements", allowed)]) ;;
  plugin_entry <- alloc (OArray [rehypeMdxElements; plugin_options]) ;;
  user_rehype <- spread_or_empty rehypePlugins ;;
  mergedRehypePlugins <- alloc (OArray ([plugin_entry] ++ user_rehype)) ;;
  (* mergedRemarkRehypeOptions *)
  passThrough <-
    alloc (OArray [VStr "mdxJsxFlowElement"; VStr "mdxJsxTextElement"]) ;;
  merged_options <-
    object_spread [("passThrough", passThrough)] remarkRehypeOptions ;;
  mergedRemarkRehypeOptions <- alloc (ORecord merged_options) ;;
  (* createElement(MarkdownComponent, { ...props, components, ... }) *)
  spread <- object_spread [] props ;;
  config <-
    alloc (ORecord
      (set_prop "remarkRehypeOptions" mergedRemarkRehypeOptions
        (set_prop "rehypePlugins" mergedRehypePlugins
          (set_prop "remarkPlugins" mergedRemarkPlugins
            (set_prop "components" components spread))))) ;;
  createElement MarkdownComponent config.

Definition withMdx (MarkdownComponent : value) : value → M ReactElement :=
  ReactMarkdownWithMdx MarkdownComponent.

(** *** The earlier revision of the wrapper

    The copy of [withMdx] in [src/unnamed/part_000].  It differs from the one
    above in one expression: the allowlist is
    [components && Object.keys(components)], which yields [components] itself
    when that is falsy. *)
Module Part000.

Definition allowedComponents (components : value) : M value :=
  if truthy components then Object_keys components else ret components.

Definition ReactMarkdownWithMdx (MarkdownComponent : value) (arg : value)
  : M ReactElement :=
  a <- read_record arg ;;
  let components := get_prop "components" a in
  let remarkPlugins := get_prop "remarkPlugins" a in
  let remarkMdxPlugins := get_prop "remarkMdxPlugins" a in
  let rehypePlugins := get_prop "rehypePlugins" a in
  let remarkRehypeOptions := get_prop "remarkRehypeOptions" a in
  props <- alloc (ORecord (rest_props named_props a)) ;;
  user_remark <- spread_or_empty remarkPlugins ;;
  user_mdx <- spread_or_empty remarkMdxPlugins ;;
  mergedRemarkPlugins <-
    alloc (OArray ([remarkMdx] ++ user_remark ++ [remarkUnravelMdx] ++ user_mdx)) ;;
  allowed <- allowedComponents components ;;
  plugin_options <- alloc (ORecord [("allowedElements", allowed)]) ;;
  plugin_entry <- alloc (OArray [rehypeMdxElements; plugin_options]) ;;
  user_rehype <- spread_or_empty rehypePlugins ;;
  mergedRehypePlugins <- alloc (OArray ([plugin_entry] ++ user_rehype)) ;;
  passThrough <-
    alloc (OArray [VStr "mdxJsxFlowElement"; VStr "mdxJsxTextElement"]) ;;
  merged_options <-
    object_spread [("passThrough", passThrough)] remarkRehypeOptions ;;
  mergedRemarkRehypeOptions <- alloc (ORecord merged_options) ;;
  spread <- object_spread [] props ;;
  config <-
    alloc (ORecord
      (set_prop "remarkRehypeOptions" mergedRemarkRehypeOptions
        (set_prop "rehypePlugins" mergedRehypePlugins
          (set_prop "remarkPlugins" mergedRemarkPlugins
            (set_prop "components" components spread))))) ;;
  createElement MarkdownComponent config.

Definition withMdx (MarkdownComponent : value) : value → M ReactElement :=
  ReactMarkdownWithMdx MarkdownComponent.

End Part000.

(** ** [mdxComponent]

    The validator is external: [validator.parse] is any computation that
    returns the validated object or throws. *)

(** [node?.properties] *)
Definition node_properties (node : value) : M value :=
  if nullish node then ret VUndefined
  else n <- read_record node ;; ret (get_prop "properties" n).

(** [createElement(Component, { ...props })] *)
Definition render_validated (Component : value) (props : value)
  : M ReactElement :=
  copy <- object_spread [] props ;;
  config <- alloc (ORecord copy) ;;
  createElement Component config.

Definition ReactMarkownComponent (Component : value)
    (validator_parse : value → M value) (arg : value) : M ReactElement :=
  a <- read_record arg ;;
  let node := get_prop "node" a in
  let children := get_prop "children" a in
  properties <- node_properties node ;;
  spread <- object_spread [] properties ;;
  candidate <- alloc (ORecord (set_prop "children" children spread)) ;;
  props <- validator_parse candidate ;;
  render_validated Component props.

Definition mdxComponent (Component : value) (validator_parse : value → M value)
  : value → M ReactElement :=
  ReactMarkownComponent Component validator_parse.

(** ** Reading the store *)

Definition array_at (h : heap) (v : value) : option (list value) :=
  match v with
  | VRef l => match h !! l with
              | Some (OArray xs) => Some xs
              | _ => None
              end
  | _ => None
  end.

Definition record_at (h : heap) (v : value) : option fields :=
  match v with
  | VRef l => match h !! l with
              | Some (ORecord fs) => Some fs
              | _ => None
              end
  | _ => None
  end.

(** What [v ?? []] holds, and what [{...v}] copies, for a well-typed [v]. *)
Definition elems_or_empty (h : heap) (v : value) : list value :=
  default [] (array_at h v).

Definition fields_or_empty (h : heap) (v : value) : fields :=
  default [] (record_at h v).

(** ** The declared types, as checks on the store *)

Definition is_array_ref (h : heap) (v : value) : bool :=
  bool_decide (is_Some (array_at h v)).

(** A plain object has pairwise distinct own keys. *)
Definition is_record_ref (h : heap) (v : value) : bool :=
  match record_at h v with
  | Some fs => bool_decide (NoDup fs.*1)
  | None => false
  end.

(** [T | null | undefined] *)
Definition optional (p : value → bool) (v : value) : bool :=
  nullish v || p v.

(** remark-rehype's options: a plain object whose [passThrough], when
    present, is a list. *)
Definition is_options_ref (h : heap) (v : value) : bool :=
  match record_at h v with
  | Some fs =>
      bool_decide (NoDup fs.*1)
      && optional (is_array_ref h) (get_prop "passThrough" fs)
  | None => false
  end.

(** react-markdown's [Options], as far as this module reads it: the props
    are a plain object (pairwise distinct keys) whose [components] is an
    optional plain object, whose plugin lists are optional lists and whose
    [remarkRehypeOptions] is an optional options record.  The other fields
    of [Options] are not constrained here. *)
Definition typed_Options (h : heap) (arg : value) : bool :=
  match record_at h arg with
  | Some a =>
      bool_decide (NoDup a.*1)
      && optional (is_record_ref h) (get_prop "components" a)
      && optional (is_array_ref h) (get_prop "remarkPlugins" a)
      && optional (is_array_ref h) (get_prop "rehypePlugins" a)
      && optional (is_options_ref h) (get_prop "remarkRehypeOptions" a)
  | None => false
  end.

(** [interface WithMdxOptions extends Options
      { remarkMdxPlugins?: PluggableList | null | undefined }] *)
Definition typed_WithMdxOptions (h : heap) (arg : value) : bool :=
  typed_Options h arg
  && match record_at h arg with
     | Some a => optional (is_array_ref h) (get_prop "remarkMdxPlugins" a)
     | None => false
     end.

(** [PropsWithChildren<ExtraProps>]: an optional [node], an element whose
    [properties] is a plain object. *)
Definition typed_ComponentProps (h : heap) (arg : value) : bool :=
  match record_at h arg with
  | Some a =>
      let node := get_prop "node" a in
      nullish node
      || match record_at h node with
         | Some n => optional (is_record_ref h) (get_prop "properties" n)
         | None => false
         end
  | None => false
  end.

(** ** What the renderer is handed *)

(** The props object given to [createElement]. *)
Definition passed_props (h : heap) (el : ReactElement) : option fields :=
  record_at h (el_props el).

(** The list given under [k] ([remarkPlugins], [rehypePlugins]). *)
Definition passed_list (k : string) (h : heap) (el : ReactElement)
  : option (list value) :=
  cfg ← passed_props h el; array_at h (get_prop k cfg).

(** The first entry of the rehype list, as a [plugin, options] pair. *)
Definition first_rehype_entry (h : heap) (el : ReactElement)
  : option (value * fields) :=
  plugins ← passed_list "rehypePlugins" h el;
  entry ← head plugins;
  pair ← array_at h entry;
  match pair with
  | [plugin; options] => o ← record_at h options; Some (plugin, o)
  | _ => None
  end.

(** The [allowedElements] option given to [rehypeMdxElements]. *)
Definition passed_allowedElements (h : heap) (el : ReactElement)
  : option value :=
  entry ← first_rehype_entry h el;
  if decide (entry.1 = rehypeMdxElements)
  then Some (get_prop "allowedElements" entry.2)
  else None.

(** The [remarkRehypeOptions] record given to the renderer. *)
Definition passed_options (h : heap) (el : ReactElement) : option fields :=
  cfg ← passed_props h el; record_at h (get_prop "remarkRehypeOptions" cfg).

(** The props the wrapper merges; every other prop is forwarded. *)
Definition merged_props : list string :=
  ["remarkPlugins"; "remarkMdxPlugins"; "rehypePlugins"; "remarkRehypeOptions"].

(** A list observed by content, any other value as it is. *)
Definition deref (h : heap) (v : value) : value + list value :=
  match array_at h v with
  | Some xs => inr xs
  | None => inl v
  end.

(** An options record observed: the [passThrough] list by content. *)
Definition options_view (h : heap) (fs : fields)
  : list (string * (value + list value)) :=
  (λ e, (e.1, if decide (e.1 = "passThrough") then deref h e.2 else inl e.2))
  <$> fs.

(** The configuration a run produces, read off the store: lists the wrapper
    builds are taken by content, caller-supplied values by identity. *)
Record observation : Type := mkObservation {
  ob_renderer : value;
  ob_remarkPlugins : list value;
  ob_rehype_plugin : value;
  ob_rehype_options : list (string * (value + list value));
  ob_rehype_user : list value;
  ob_remarkRehypeOptions : list (string * (value + list value));
  ob_forwarded : fields;
}.

Definition observe (h : heap) (el : ReactElement) : option observation :=
  cfg ← passed_props h el;
  remark ← passed_list "remarkPlugins" h el;
  rehype ← passed_list "rehypePlugins" h el;
  entry ← first_rehype_entry h el;
  options ← passed_options h el;
  Some {|
    ob_renderer := el_type el;
    ob_remarkPlugins := remark;
    ob_rehype_plugin := entry.1;
    ob_rehype_options := (λ e, (e.1, deref h e.2)) <$> entry.2;
    ob_rehype_user := tail rehype;
    ob_remarkRehypeOptions := options_view h options;
    ob_forwarded := filter (λ e, e.1 ∉ merged_props) cfg;
  |}.

(** The object [mdxComponent] validates: the node's properties, then
    [children]. *)
Definition node_fields (h : heap) (node : value) : fields :=
  if nullish node then []
  else fields_or_empty h (get_prop "properties" (fields_or_empty h node)).

Definition candidate_props (h : heap) (a : fields) : fields :=
  set_prop "children" (get_prop "children" a)
    (merge_fields [] (node_fields h (get_prop "node" a))).

(** ** Running computations, as predicates on the result *)

Definition wp {A} (m : M A) (h : heap) (Q : A → heap → Prop) : Prop :=
  match m h with
  | Ok a h' => Q a h'
  | _ => False
  end.

(** The props object the wrapper builds:
    [{ ...props, components, remarkPlugins, rehypePlugins, remarkRehypeOptions }]
    with [props] the rest of the pattern. *)
Definition config_fields (a : fields) (mp rp mo : value) : fields :=
  set_prop "remarkRehypeOptions" mo
    (set_prop "rehypePlugins" rp
      (set_prop "remarkPlugins" mp
        (set_prop "components" (get_prop "components" a)
          (merge_fields [] (rest_props named_props a))))).

(** What a successful run of the wrapper leaves behind: the element, and the
    objects it built in the store.  [fallback] is the allowlist value for a
    falsy [components]. *)
Definition composes (fallback : value → value) (h : heap) (a : fields)
    (Mk : value) (el : ReactElement) (h' : heap) : Prop :=
  let components := get_prop "components" a in
  ∃ mp rp mo entry opts allowed pt,
    h ⊆ h'
    ∧ el_type el = Mk
    ∧ record_at h' (el_props el) = Some (config_fields a mp rp mo)
    ∧ array_at h' mp = Some
        ([remarkMdx] ++ elems_or_empty h (get_prop "remarkPlugins" a)
         ++ [remarkUnravelMdx]
         ++ elems_or_empty h (get_prop "remarkMdxPlugins" a))%list
    ∧ array_at h' rp = Some
        ([entry] ++ elems_or_empty h (get_prop "rehypePlugins" a))%list
    ∧ array_at h' entry = Some [rehypeMdxElements; opts]
    ∧ record_at h' opts = Some [("allowedElements", allowed)]
    ∧ (if truthy components
       then array_at h' allowed
            = Some (VStr <$> own_keys (fields_or_empty h components))
       else allowed = fallback components)
    ∧ record_at h' mo = Some
        (merge_fields [("passThrough", pt)]
           (fields_or_empty h (get_prop "remarkRehypeOptions" a)))
    ∧ array_at h' pt = Some [VStr "mdxJsxFlowElement"; VStr "mdxJsxTextElement"].

(** ** Sample stores

    The props of the repository's own tests: a components registry, one
    custom remark plugin and user [remarkRehypeOptions]. *)

Definition Markdown : value := VFun "Markdown".

Definition sample_components : fields :=
  [("TestButton", VFun "TestButton"); ("TestAlert", VFun "TestAlert")].

Definition sample_options : fields :=
  [("footnoteLabel", VStr "Custom footnotes");
   ("footnoteLabelTagName", VStr "div")].

Definition sample_props : fields :=
  [("children", VStr "# Test");
   ("components", VRef 2%positive);
   ("remarkPlugins", VRef 3%positive);
   ("remarkRehypeOptions", VRef 4%positive);
   ("skipHtml", VBool false)].

Definition sample_heap : heap :=
  {[ 1%positive := ORecord sample_props;
     2%positive := ORecord sample_components;
     3%positive := OArray [VFun "customRemarkPlugin"];
     4%positive := ORecord sample_options ]}.

(** Props without a components map, and props with an empty one. *)
Definition bare_props : fields := [("children", VStr "<TestButton />")].

Definition bare_heap : heap := {[ 1%positive := ORecord bare_props ]}.

Definition empty_map_props : fields :=
  [("children", VStr "<TestButton />"); ("components", VRef 2%positive)].

Definition empty_map_heap : heap :=
  {[ 1%positive := ORecord empty_map_props; 2%positive := ORecord [] ]}.

(** Props whose [components] is [null]. *)
Definition null_map_props : fields :=
  [("children", VStr "<TestButton />"); ("components", VNull)].

Definition null_map_heap : heap := {[ 1%positive := ORecord null_map_props ]}.

(** Props that also carry [remarkMdxPlugins] and [rehypePlugins], with a
    caller-supplied [passThrough]. *)
Definition full_props : fields :=
  [("children", VStr "# Test");
   ("components", VRef 2%positive);
   ("remarkPlugins", VRef 3%positive);
   ("remarkMdxPlugins", VRef 4%positive);
   ("rehypePlugins", VRef 5%positive);
   ("remarkRehypeOptions", VRef 6%positive);
   ("disallowedElements", VRef 8%positive)].

Definition full_heap : heap :=
  {[ 1%positive := ORecord full_props;
     2%positive := ORecord sample_components;
     3%positive := OArray [VFun "customRemarkPlugin"];
     4%positive := OArray [VFun "customMdxPlugin"];
     5%positive := OArray [VFun "customRehypePlugin"];
     6%positive := ORecord [("passThrough", VRef 7%positive)];
     7%positive := OArray [VStr "mdxjsEsm"];
     8%positive := OArray [VStr "script"] ]}.

(** The same props in a store with one more, unrelated object. *)
Definition later_heap : heap :=
  <[ 9%positive := OArray [VStr "unrelated"] ]> full_heap.

(** A card component with a validator that demands a string [title] and,
    like an object schema, keeps only the keys it knows. *)
Definition CustomCard : value := VFun "CustomCard".

Definition card_validator (candidate : value) : M value :=
  c <- read_record candidate ;;
  match get_prop "title" c with
  | VStr _ =>
      alloc (ORecord [("title", get_prop "title" c);
                      ("children", get_prop "children" c)])
  | _ => throw (VStr "ZodError")
  end.

Definition card_heap (properties : fields) : heap :=
  {[ 1%positive := ORecord [("node", VRef 2%positive);
                            ("children", VStr "Hello There!")];
     2%positive := ORecord [("type", VStr "element");
                            ("tagName", VStr "CustomCard");
                            ("properties", VRef 3%positive)];
     3%positive := ORecord properties ]}.

Definition good_card : heap :=
  card_heap [("id", VStr "c1"); ("title", VStr "Welcome");
             ("children", VStr "shadowed")].

Definition bad_card : heap := card_heap [("id", VStr "c1")].

Definition card_props : fields :=
  [("node", VRef 2%positive); ("children", VStr "Hello There!")].

(** Component props without a node. *)
Definition nodeless_props : fields := [("children", VStr "Hello There!")].

Definition nodeless_heap : heap := {[ 1%positive := ORecord nodeless_props ]}.

(** ** What a run allocates

    The props object handed to the renderer and the three merged values in
    it are references that were free in the caller's store [h]. *)
Definition built_fresh (h : heap) (el : ReactElement) (h' : heap) : Prop :=
  ∃ lc lm lr lo cfg,
    el_props el = VRef lc
    ∧ h' !! lc = Some (ORecord cfg)
    ∧ get_prop "remarkPlugins" cfg = VRef lm
    ∧ get_prop "rehypePlugins" cfg = VRef lr
    ∧ get_prop "remarkRehypeOptions" cfg = VRef lo
    ∧ h !! lc = None ∧ h !! lm = None ∧ h !! lr = None ∧ h !! lo = None.

(** ** The test suite's rehype plugin

    [customRehypePlugin] walks a hast tree and sets [className] on every
    [h1] element.  The tree is modelled as a term and the in-place update as
    the tree after the walk. *)
Inductive hast : Type :=
| HRoot (children : list hast)
| HElement (tagName : string) (properties : fields) (children : list hast)
| HText (text : string)
| HComment (text : string)
| HDoctype.

Fixpoint visitNode (node : hast) : hast :=
  match node with
  | HRoot children => HRoot (map visitNode children)
  | HElement tagName properties children =>
      HElement tagName
        (if decide (tagName = "h1")
         then set_prop "className" (VStr "custom-heading") properties
         else properties)
        (map visitNode children)
  | HText _ | HComment _ | HDoctype => node
  end.

Definition customRehypePlugin (tree : hast) : hast := visitNode tree.

(** The nodes of a tree, in document order. *)
Fixpoint nodes (t : hast) : list hast :=
  t :: match t with
       | HRoot children | HElement _ _ children => flat_map nodes children
       | HText _ | HComment _ | HDoctype => []
       end.

(** An [h1] element that already carries the class. *)
Definition classed (n : hast) : Prop :=
  match n with
  | HElement tagName properties _ =>
      tagName = "h1" →
      ("className" ∈ properties.*1)
      ∧ get_prop "className" properties = VStr "custom-heading"
  | _ => True
  end.

(** Two nodes that differ at most in the [className] of an [h1]. *)
Definition same_but_class (n n' : hast) : Prop :=
  match n, n' with
  | HRoot cs, HRoot cs' => length cs = length cs'
  | HElement t ps cs, HElement t' ps' cs' =>
      t = t' ∧ length cs = length cs'
      ∧ (∀ k, t ≠ "h1" ∨ k ≠ "className" → get_prop k ps' = get_prop k ps)
      ∧ (t ≠ "h1" → ps' = ps)
  | HText s, HText s' => s = s'
  | HComment s, HComment s' => s = s'
  | HDoctype, HDoctype => True
  | _, _ => False
  end.

Definition sample_tree : hast :=
  HRoot [HElement "h1" [("id", VStr "top")] [HText "Custom Heading"];
         HElement "p" [] [HText "body"; HElement "h1" [] []]].

(** A tree whose only [h1] already has the class. *)
Definition classed_tree : hast :=
  HRoot [HElement "h1" [("className", VStr "custom-heading")] [HText "t"];
         HElement "p" [] [HComment "c"]].

(** Induction on trees, with the hypothesis for every child. *)
Section hast_induction.
Variable P : hast → Prop.
Hypothesis Hroot : ∀ cs, Forall P cs → P (HRoot cs).
Hypothesis Helement : ∀ t ps cs, Forall P cs → P (HElement t ps cs).
Hypothesis Htext : ∀ s, P (HText s).
Hypothesis Hcomment : ∀ s, P (HComment s).
Hypothesis Hdoctype : P HDoctype.

Fixpoint hast_forall_ind (t : hast) : P t :=
  let fix go (cs : list hast) : Forall P cs :=
    match cs with
    | [] => @List.Forall_nil hast P
    | c :: cs' =>
        @List.Forall_cons hast P c cs' (hast_forall_ind c) (go cs')
    end in
  match t with
  | HRoot cs => Hroot cs (go cs)
  | HElement tag ps cs => Helement tag ps cs (go cs)
  | HText s => Htext s
  | HComment s => Hcomment s
  | HDoctype => Hdoctype
  end.
End hast_induction.

(** * Properties *)

(** ** Property lists *)

Section prop_lists.
Implicit Types (k : string) (v : value) (fs : fields).

Lemma get_prop_set_prop k k' v fs :
  get_prop k (set_prop k' v fs) = if decide (k' = k) then v else get_prop k fs.
Proof.
  induction fs as [|[k0 v0] fs IH]; simpl.
  - destruct (decide (k' = k)); done.
  - destruct (decide (k0 = k')) as [->|Hne]; simpl.
    + destruct (decide (k' = k)); done.
    + destruct (decide (k0 = k)) as [->|]; [|done].
      destruct (decide (k' = k)); congruence.
Qed.

Lemma keys_set_prop k k' v fs :
  k ∈ (set_prop k' v fs).*1 ↔ k = k' ∨ k ∈ fs.*1.
Proof.
  induction fs as [|[k0 v0] fs IH]; simpl.
  - rewrite list_elem_of_singleton, elem_of_nil. tauto.
  - destruct (decide (k0 = k')) as [->|Hne]; simpl;
      rewrite !elem_of_cons; [tauto|]. rewrite IH. tauto.
Qed.

Lemma NoDup_set_prop k v fs :
  NoDup fs.*1 → NoDup (set_prop k v fs).*1.
Proof.
  induction fs as [|[k0 v0] fs IH]; simpl; intros Hnd.
  - apply NoDup_singleton.
  - apply NoDup_cons in Hnd as [Hk0 Hnd].
    destruct (decide (k0 = k)) as [->|Hne]; simpl.
    + by apply NoDup_cons.
    + apply NoDup_cons. split; [|by apply IH].
      rewrite keys_set_prop. intros [?|?]; done.
Qed.

Lemma get_prop_notin k fs : k ∉ fs.*1 → get_prop k fs = VUndefined.
Proof.
  induction fs as [|[k0 v0] fs IH]; simpl; [done|].
  rewrite not_elem_of_cons. intros [Hne Hk].
  destruct (decide (k0 = k)); [congruence|auto].
Qed.

Lemma get_prop_elem k v fs :
  NoDup fs.*1 → (k, v) ∈ fs → get_prop k fs = v.
Proof.
  induction fs as [|[k0 v0] fs IH]; simpl; intros Hnd Hin.
  - by apply elem_of_nil in Hin.
  - apply NoDup_cons in Hnd as [Hk0 Hnd].
    apply elem_of_cons in Hin as [Heq|Hin].
    + injection Heq as -> ->. by rewrite decide_True.
    + destruct (decide (k0 = k)) as [->|]; [|auto].
      exfalso. apply Hk0. apply list_elem_of_fmap. by exists (k, v).
Qed.

Lemma elem_get_prop k fs : k ∈ fs.*1 → (k, get_prop k fs) ∈ fs.
Proof.
  induction fs as [|[k0 v0] fs IH]; simpl.
  - by intros ?%elem_of_nil.
  - destruct (decide (k0 = k)) as [->|Hne]; [left|].
    rewrite elem_of_cons. intros [?|?]; [congruence|]. right. auto.
Qed.

Lemma get_prop_perm k fs fs' :
  NoDup fs.*1 → fs ≡ₚ fs' → get_prop k fs = get_prop k fs'.
Proof.
  intros Hnd Hp.
  assert (NoDup fs'.*1) as Hnd' by (by rewrite <- Hp).
  destruct (decide (k ∈ fs.*1)) as [Hin|Hout].
  - symmetry. apply get_prop_elem; [done|].
    rewrite <- Hp. by apply elem_get_prop.
  - rewrite !get_prop_notin; [done| |done]. by rewrite <- Hp.
Qed.

Lemma get_prop_filter (P : string → Prop) `{!∀ x, Decision (P x)} k fs :
  get_prop k (filter (λ e, P e.1) fs)
  = if decide (P k) then get_prop k fs else VUndefined.
Proof.
  induction fs as [|[k0 v0] fs IH]; simpl.
  - by destruct (decide (P k)).
  - rewrite filter_cons. simpl.
    destruct (decide (P k0)) as [HP|HP]; simpl;
      destruct (decide (k0 = k)) as [->|Hne]; rewrite ?IH; try done;
      destruct (decide (P k)); done.
Qed.

Lemma keys_filter (P : string → Prop) `{!∀ x, Decision (P x)} k fs :
  k ∈ (filter (λ e, P e.1) fs).*1 ↔ P k ∧ (k ∈ fs.*1).
Proof.
  rewrite !list_elem_of_fmap. split.
  - intros ([k0 v0] & -> & [HP Hin]%list_elem_of_filter). simpl in *.
    split; [done|]. by exists (k0, v0).
  - intros [HP ([k0 v0] & -> & Hin)]. exists (k0, v0).
    split; [done|]. by apply list_elem_of_filter.
Qed.

Lemma NoDup_keys_filter (P : string * value → Prop) `{!∀ x, Decision (P x)} fs :
  NoDup fs.*1 → NoDup (filter P fs).*1.
Proof.
  induction fs as [|[k0 v0] fs IH]; simpl; [done|].
  intros [Hk0 Hnd]%NoDup_cons. rewrite filter_cons.
  destruct (decide (P (k0, v0))); simpl; [|auto].
  apply NoDup_cons. split; [|auto].
  rewrite list_elem_of_fmap. intros ([k1 v1] & -> & [_ Hin]%list_elem_of_filter).
  apply Hk0. apply list_elem_of_fmap. by exists (k1, v1).
Qed.
End prop_lists.

(** ** Own-key order and object spread *)

Section own_order.
Implicit Types (k : string) (v : value) (fs : fields).

Lemma index_entries_snd fs :
  (index_entries fs).*2 = filter (λ e, ¬ array_index e.1 = None) fs.
Proof.
  unfold index_entries.
  induction fs as [|[k0 v0] fs IH]; [done|].
  rewrite filter_cons. simpl.
  destruct (array_index k0) as [n|] eqn:Hk; simpl.
  - f_equal. apply IH.
  - apply IH.
Qed.

Lemma own_entries_perm fs : own_entries fs ≡ₚ fs.
Proof.
  unfold own_entries.
  rewrite (merge_sort_Permutation index_le (index_entries fs)).
  rewrite index_entries_snd.
  rewrite (comm (++)).
  apply (filter_app_complement (λ e : string * value, array_index e.1 = None)).
Qed.

Lemma own_entries_plain fs :
  Forall (λ e, array_index e.1 = None) fs → own_entries fs = fs.
Proof.
  intros Hall. unfold own_entries.
  assert (index_entries fs = []) as ->.
  { unfold index_entries. induction Hall as [|[k0 v0] fs Hk _ IH]; [done|].
    simpl in *. by rewrite Hk. }
  simpl. induction Hall as [|e fs He _ IH]; [done|].
  rewrite filter_cons. by rewrite decide_True, IH.
Qed.

Lemma own_entries_elem e fs : e ∈ own_entries fs ↔ e ∈ fs.
Proof. by rewrite own_entries_perm. Qed.

Lemma own_keys_elem k fs : k ∈ own_keys fs ↔ k ∈ fs.*1.
Proof. unfold own_keys. by rewrite own_entries_perm. Qed.

Lemma NoDup_own_entries fs : NoDup fs.*1 → NoDup (own_entries fs).*1.
Proof. by rewrite own_entries_perm. Qed.

Lemma get_prop_own_entries k fs :
  NoDup fs.*1 → get_prop k (own_entries fs) = get_prop k fs.
Proof.
  intros Hnd. apply get_prop_perm; [by apply NoDup_own_entries|].
  apply own_entries_perm.
Qed.

Lemma get_prop_foldl_set k (es target : fields) :
  NoDup es.*1 →
  get_prop k (foldl (λ acc e, set_prop e.1 e.2 acc) target es)
  = if decide (k ∈ es.*1) then get_prop k es else get_prop k target.
Proof.
  revert target. induction es as [|[k1 v1] es IH]; intros target Hnd; simpl.
  - first [done | rewrite decide_False; [done|by intros ?%elem_of_nil]].
  - apply NoDup_cons in Hnd as [Hk1 Hnd]. rewrite IH by done.
    rewrite get_prop_set_prop.
    destruct (decide (k ∈ es.*1)) as [Hin|Hout].
    + rewrite decide_True by (by right).
      rewrite decide_False; [done|]. by intros ->.
    + destruct (decide (k1 = k)) as [->|Hne].
      * by rewrite decide_True by (by left).
      * rewrite decide_False; [done|].
        rewrite elem_of_cons. intros [?|?]; done.
Qed.

Lemma keys_foldl_set k (es target : fields) :
  k ∈ (foldl (λ acc e, set_prop e.1 e.2 acc) target es).*1
  ↔ k ∈ target.*1 ∨ k ∈ es.*1.
Proof.
  revert target. induction es as [|[k1 v1] es IH]; intros target; simpl.
  - rewrite elem_of_nil. tauto.
  - rewrite IH, keys_set_prop, elem_of_cons. tauto.
Qed.

Lemma NoDup_foldl_set (es target : fields) :
  NoDup target.*1 →
  NoDup (foldl (λ acc e, set_prop e.1 e.2 acc) target es).*1.
Proof.
  revert target. induction es as [|[k1 v1] es IH]; intros target Hnd; simpl.
  - done.
  - apply IH. by apply NoDup_set_prop.
Qed.

(** Shallow merge: a key of the source takes the source's value, any other
    key keeps the target's. *)
Lemma get_prop_merge k target src :
  NoDup src.*1 →
  get_prop k (merge_fields target src)
  = if decide (k ∈ src.*1) then get_prop k src else get_prop k target.
Proof.
  intros Hnd. unfold merge_fields.
  rewrite get_prop_foldl_set by (by apply NoDup_own_entries).
  rewrite get_prop_own_entries by done.
  destruct (decide (k ∈ (own_entries src).*1)) as [Hin|Hout];
    fold (own_keys src) in *; rewrite own_keys_elem in *.
  - by rewrite decide_True.
  - by rewrite decide_False.
Qed.

Lemma keys_merge k target src :
  k ∈ (merge_fields target src).*1 ↔ k ∈ target.*1 ∨ k ∈ src.*1.
Proof.
  unfold merge_fields. rewrite keys_foldl_set.
  fold (own_keys src). by rewrite own_keys_elem.
Qed.

Lemma NoDup_merge target src :
  NoDup target.*1 → NoDup (merge_fields target src).*1.
Proof. apply NoDup_foldl_set. Qed.

Lemma merge_fields_nil target : merge_fields target [] = target.
Proof. done. Qed.

(** The rest object holds exactly the properties not named in the pattern. *)
Lemma get_prop_rest k named fs :
  NoDup fs.*1 →
  get_prop k (rest_props named fs)
  = if decide (k ∈ named) then VUndefined else get_prop k fs.
Proof.
  intros Hnd. unfold rest_props.
  etrans; [exact (get_prop_filter (λ x, x ∉ named) k (own_entries fs))|].
  rewrite get_prop_own_entries by done.
  destruct (decide (k ∈ named)).
  - by rewrite decide_False by (intros Hn; by apply Hn).
  - by rewrite decide_True.
Qed.

Lemma keys_rest k named fs :
  k ∈ (rest_props named fs).*1 ↔ (k ∉ named) ∧ (k ∈ fs.*1).
Proof.
  unfold rest_props.
  etrans; [exact (keys_filter (λ x, x ∉ named) k (own_entries fs))|].
  fold (own_keys fs). by rewrite own_keys_elem.
Qed.

Lemma NoDup_rest named fs : NoDup fs.*1 → NoDup (rest_props named fs).*1.
Proof.
  intros Hnd. unfold rest_props.
  apply NoDup_keys_filter. by apply NoDup_own_entries.
Qed.
End own_order.

Example array_index_canonical :
  array_index "10" = Some 10%N ∧ array_index "0" = Some 0%N
  ∧ array_index "01" = None ∧ array_index "h1" = None
  ∧ array_index "4294967294" = Some 4294967294%N
  ∧ array_index "4294967295" = None.
Proof. by vm_compute. Qed.

Example own_keys_order :
  own_keys [("b", VNull); ("10", VNull); ("a", VNull); ("2", VNull)]
  = ["2"; "10"; "b"; "a"].
Proof. by vm_compute. Qed.

Example spread_overrides_in_place :
  merge_fields [("passThrough", VNum 1); ("x", VNum 2)]
    [("y", VNum 3); ("passThrough", VNum 4)]
  = [("passThrough", VNum 4); ("x", VNum 2); ("y", VNum 3)].
Proof. by vm_compute. Qed.

(** ** Running computations *)

Section running.
Context {A B : Type}.
Implicit Types (h : heap) (v : value).

Lemma wp_elim (m : M A) h Q :
  wp m h Q → ∃ a h', m h = Ok a h' ∧ Q a h'.
Proof. unfold wp. destruct (m h); [eauto|done..]. Qed.

Lemma wp_ret (a : A) h Q : Q a h → wp (ret a) h Q.
Proof. done. Qed.

Lemma wp_bind (m : M A) (k : A → M B) h Q :
  wp m h (λ a h', wp (k a) h' Q) → wp (bind m k) h Q.
Proof. unfold wp, bind. by destruct (m h). Qed.

Lemma wp_mono (m : M A) h (Q Q' : A → heap → Prop) :
  (∀ a h', Q a h' → Q' a h') → wp m h Q → wp m h Q'.
Proof. unfold wp. destruct (m h); auto. Qed.
End running.

Section primitives.
Implicit Types (h : heap) (v : value).

Lemma wp_alloc o h Q :
  (∀ l h', h !! l = None → h ⊆ h' → h' !! l = Some o → Q (VRef l) h') →
  wp (alloc o) h Q.
Proof.
  intros HQ. unfold wp, alloc.
  assert (h !! fresh (dom h) = None) as Hfresh
    by (apply not_elem_of_dom, is_fresh).
  apply HQ; [done|by apply insert_subseteq|by rewrite lookup_insert_eq].
Qed.

Lemma array_at_weaken h h' v xs :
  h ⊆ h' → array_at h v = Some xs → array_at h' v = Some xs.
Proof.
  intros Hsub. destruct v as [| | | | | |l]; simpl; try done.
  destruct (h !! l) as [o|] eqn:Hl; [|done].
  by rewrite (lookup_weaken _ _ _ _ Hl Hsub).
Qed.

Lemma record_at_weaken h h' v fs :
  h ⊆ h' → record_at h v = Some fs → record_at h' v = Some fs.
Proof.
  intros Hsub. destruct v as [| | | | | |l]; simpl; try done.
  destruct (h !! l) as [o|] eqn:Hl; [|done].
  by rewrite (lookup_weaken _ _ _ _ Hl Hsub).
Qed.

Lemma array_at_ref h l xs : h !! l = Some (OArray xs) → array_at h (VRef l) = Some xs.
Proof. simpl. by intros ->. Qed.

Lemma record_at_ref h l fs : h !! l = Some (ORecord fs) → record_at h (VRef l) = Some fs.
Proof. simpl. by intros ->. Qed.

Lemma wp_read_record v h fs Q :
  record_at h v = Some fs → Q fs h → wp (read_record v) h Q.
Proof.
  unfold wp, read_record. destruct v as [| | | | | |l]; simpl; try done.
  destruct (h !! l) as [[]|]; try done. by intros [= ->].
Qed.

Lemma wp_read_array v h xs Q :
  array_at h v = Some xs → Q xs h → wp (read_array v) h Q.
Proof.
  unfold wp, read_array. destruct v as [| | | | | |l]; simpl; try done.
  destruct (h !! l) as [[]|]; try done. by intros [= ->].
Qed.

(** A well-typed optional list read in a store that extends the caller's. *)
Lemma wp_spread_or_empty v h0 h Q :
  h0 ⊆ h → optional (is_array_ref h0) v = true →
  Q (elems_or_empty h0 v) h → wp (spread_or_empty v) h Q.
Proof.
  intros Hsub Hty HQ. unfold spread_or_empty, elems_or_empty, optional in *.
  destruct (nullish v) eqn:Hn.
  - apply wp_ret. by destruct v.
  - simpl in Hty. unfold is_array_ref in Hty.
    apply bool_decide_eq_true in Hty as [xs Hxs].
    rewrite Hxs in HQ. simpl in HQ.
    eapply wp_read_array; [by eapply array_at_weaken|done].
Qed.

Lemma is_record_ref_inv h v :
  is_record_ref h v = true → ∃ fs, record_at h v = Some fs ∧ NoDup fs.*1.
Proof.
  unfold is_record_ref. destruct (record_at h v) as [fs|]; [|done].
  intros ?%bool_decide_eq_true. eauto.
Qed.

Lemma wp_object_spread target v h0 h Q :
  h0 ⊆ h → optional (is_record_ref h0) v = true →
  Q (merge_fields target (fields_or_empty h0 v)) h →
  wp (object_spread target v) h Q.
Proof.
  intros Hsub Hty HQ. unfold object_spread, fields_or_empty, optional in *.
  destruct (nullish v) eqn:Hn.
  - apply wp_ret. by destruct v.
  - simpl in Hty. apply is_record_ref_inv in Hty as (fs & Hfs & _).
    rewrite Hfs in HQ. simpl in HQ.
    apply wp_bind. eapply wp_read_record; [by eapply record_at_weaken|].
    by apply wp_ret.
Qed.

Lemma truthy_optional_record h v :
  optional (is_record_ref h) v = true →
  truthy v = true → is_record_ref h v = true.
Proof. unfold optional. by destruct v. Qed.

Lemma wp_Object_keys v h0 h Q :
  h0 ⊆ h → is_record_ref h0 v = true →
  (∀ l h', h !! l = None → h ⊆ h' →
     h' !! l = Some (OArray (VStr <$> own_keys (fields_or_empty h0 v))) →
     Q (VRef l) h') →
  wp (Object_keys v) h Q.
Proof.
  intros Hsub (fs & Hfs & _)%is_record_ref_inv HQ.
  unfold Object_keys, fields_or_empty in *. rewrite Hfs in HQ. simpl in HQ.
  apply wp_bind. eapply wp_read_record; [by eapply record_at_weaken|].
  by apply wp_alloc.
Qed.
End primitives.

(** ** The wrapper, run on well-typed props *)

Lemma options_is_record h v :
  optional (is_options_ref h) v = true → optional (is_record_ref h) v = true.
Proof.
  unfold optional, is_options_ref, is_record_ref.
  destruct (nullish v); [done|]. simpl.
  destruct (record_at h v); [|done]. by intros [? _]%andb_true_iff.
Qed.

Lemma typed_Options_inv h arg :
  typed_Options h arg = true →
  ∃ a, record_at h arg = Some a
       ∧ NoDup a.*1
       ∧ optional (is_record_ref h) (get_prop "components" a) = true
       ∧ optional (is_array_ref h) (get_prop "remarkPlugins" a) = true
       ∧ optional (is_array_ref h) (get_prop "rehypePlugins" a) = true
       ∧ optional (is_options_ref h) (get_prop "remarkRehypeOptions" a) = true.
Proof.
  unfold typed_Options. destruct (record_at h arg) as [a|]; [|done].
  rewrite !andb_true_iff, bool_decide_eq_true.
  intros [[[[? ?] ?] ?] ?]. by exists a.
Qed.

Lemma typed_WithMdxOptions_inv h arg :
  typed_WithMdxOptions h arg = true →
  ∃ a, record_at h arg = Some a
       ∧ NoDup a.*1
       ∧ optional (is_record_ref h) (get_prop "components" a) = true
       ∧ optional (is_array_ref h) (get_prop "remarkPlugins" a) = true
       ∧ optional (is_array_ref h) (get_prop "remarkMdxPlugins" a) = true
       ∧ optional (is_array_ref h) (get_prop "rehypePlugins" a) = true
       ∧ optional (is_options_ref h) (get_prop "remarkRehypeOptions" a) = true.
Proof.
  unfold typed_WithMdxOptions. rewrite andb_true_iff.
  intros [(a & Ha & ? & ? & ? & ? & ?)%typed_Options_inv Hmdx].
  rewrite Ha in Hmdx. by exists a.
Qed.

Ltac sub_solve :=
  first [ eassumption | reflexivity | (etrans; [|eassumption]; sub_solve) ].

Ltac lookup_solve :=
  first [ eassumption | (eapply lookup_weaken; [|eassumption]; lookup_solve) ].

Ltac at_solve :=
  first [ (apply array_at_ref; lookup_solve)
        | (apply record_at_ref; lookup_solve) ].

Ltac step_alloc :=
  apply wp_bind, wp_alloc;
  let l := fresh "l" in let h' := fresh "h" in
  intros l h' ? ? ?.

Ltac step_list :=
  apply wp_bind; eapply wp_spread_or_empty; [|eassumption|]; [sub_solve|].

Ltac step_spread tac :=
  apply wp_bind; eapply wp_object_spread; [|tac|]; [sub_solve|].

Lemma rest_object_typed h l named a :
  NoDup a.*1 → h !! l = Some (ORecord (rest_props named a)) →
  optional (is_record_ref h) (VRef l) = true.
Proof.
  intros Hnd Hl. unfold optional, is_record_ref. simpl. rewrite Hl.
  apply bool_decide_eq_true. by apply NoDup_rest.
Qed.

Lemma rest_object_fields h l fs :
  h !! l = Some (ORecord fs) → fields_or_empty h (VRef l) = fs.
Proof. unfold fields_or_empty. simpl. by intros ->. Qed.

(** The steps after the allowlist has been computed. *)
Ltac run_tail :=
  step_alloc; step_alloc; step_list; step_alloc; step_alloc;
  step_spread eassumption; step_alloc;
  step_spread ltac:(eapply rest_object_typed; eassumption);
  erewrite rest_object_fields by eassumption;
  step_alloc; apply wp_ret.

Lemma ReactMarkdownWithMdx_run Mk arg h a :
  typed_WithMdxOptions h arg = true → record_at h arg = Some a →
  wp (ReactMarkdownWithMdx Mk arg) h (composes (λ _, VUndefined) h a Mk).
Proof.
  intros (a' & Ha' & Hnd & Hc & Hr & Hm & Hh & Ho)%typed_WithMdxOptions_inv Ha.
  assert (a' = a) as -> by congruence.
  apply options_is_record in Ho.
  unfold ReactMarkdownWithMdx.
  apply wp_bind. eapply wp_read_record; [eassumption|].
  step_alloc. step_list. step_list. step_alloc.
  apply wp_bind. unfold allowedComponents.
  destruct (truthy (get_prop "components" a)) eqn:Htruthy.
  - eapply (wp_Object_keys _ h);
      [sub_solve|by eapply truthy_optional_record|].
    intros lk hk ? ? ?. run_tail.
    unfold composes. rewrite Htruthy.
    eexists _, _, _, _, _, _, _.
    repeat split; [sub_solve|at_solve..].
  - apply wp_ret. run_tail.
    unfold composes. rewrite Htruthy.
    eexists _, _, _, _, _, _, _.
    repeat split; first [sub_solve|at_solve|done].
Qed.

Lemma Part000_ReactMarkdownWithMdx_run Mk arg h a :
  typed_WithMdxOptions h arg = true → record_at h arg = Some a →
  wp (Part000.ReactMarkdownWithMdx Mk arg) h (composes (λ c, c) h a Mk).
Proof.
  intros (a' & Ha' & Hnd & Hc & Hr & Hm & Hh & Ho)%typed_WithMdxOptions_inv Ha.
  assert (a' = a) as -> by congruence.
  apply options_is_record in Ho.
  unfold Part000.ReactMarkdownWithMdx.
  apply wp_bind. eapply wp_read_record; [eassumption|].
  step_alloc. step_list. step_list. step_alloc.
  apply wp_bind. unfold Part000.allowedComponents.
  destruct (truthy (get_prop "components" a)) eqn:Htruthy.
  - eapply (wp_Object_keys _ h);
      [sub_solve|by eapply truthy_optional_record|].
    intros lk hk ? ? ?. run_tail.
    unfold composes. rewrite Htruthy.
    eexists _, _, _, _, _, _, _.
    repeat split; [sub_solve|at_solve..].
  - apply wp_ret. run_tail.
    unfold composes. rewrite Htruthy.
    eexists _, _, _, _, _, _, _.
    repeat split; first [sub_solve|at_solve|done].
Qed.

(** Both revisions return an element on every well-typed props object. *)
Lemma wrapper_returns Mk arg h :
  typed_WithMdxOptions h arg = true →
  ∃ a, record_at h arg = Some a
    ∧ (∃ el h', ReactMarkdownWithMdx Mk arg h = Ok el h'
                ∧ composes (λ _, VUndefined) h a Mk el h')
    ∧ (∃ el h', Part000.ReactMarkdownWithMdx Mk arg h = Ok el h'
                ∧ composes (λ c, c) h a Mk el h').
Proof.
  intros Hty.
  destruct (typed_WithMdxOptions_inv _ _ Hty) as (a & Ha & _).
  exists a. split; [done|]. split; apply wp_elim.
  - by apply ReactMarkdownWithMdx_run.
  - by apply Part000_ReactMarkdownWithMdx_run.
Qed.

(** ** Reading a run's result *)

Section reading.
Implicit Types (h : heap) (a : fields) (k : string).

Lemma get_config_remarkPlugins a mp rp mo :
  get_prop "remarkPlugins" (config_fields a mp rp mo) = mp.
Proof. unfold config_fields. by rewrite !get_prop_set_prop. Qed.

Lemma get_config_rehypePlugins a mp rp mo :
  get_prop "rehypePlugins" (config_fields a mp rp mo) = rp.
Proof. unfold config_fields. by rewrite !get_prop_set_prop. Qed.

Lemma get_config_remarkRehypeOptions a mp rp mo :
  get_prop "remarkRehypeOptions" (config_fields a mp rp mo) = mo.
Proof. unfold config_fields. by rewrite !get_prop_set_prop. Qed.

Lemma get_config_components a mp rp mo :
  get_prop "components" (config_fields a mp rp mo) = get_prop "components" a.
Proof. unfold config_fields. by rewrite !get_prop_set_prop. Qed.

(** Every prop the wrapper does not merge reads the same before and after. *)
Lemma get_config_forwarded a mp rp mo k :
  NoDup a.*1 → k ∉ merged_props →
  get_prop k (config_fields a mp rp mo) = get_prop k a.
Proof.
  intros Hnd Hk. unfold config_fields, merged_props in *.
  rewrite !not_elem_of_cons in Hk. destruct Hk as (? & ? & ? & ? & _).
  rewrite !get_prop_set_prop.
  rewrite !decide_False by done.
  destruct (decide ("components" = k)) as [<-|Hc]; [done|].
  rewrite get_prop_merge by (by apply NoDup_rest).
  rewrite get_prop_rest by done.
  destruct (decide (k ∈ (rest_props named_props a).*1)) as [Hin|Hout].
  - rewrite decide_False; [done|]. by apply keys_rest in Hin as [? _].
  - simpl. apply dec_stable. intros Hne. apply Hout, keys_rest.
    split.
    + unfold named_props. rewrite !not_elem_of_cons, elem_of_nil. naive_solver.
    + destruct (decide (k ∈ a.*1)) as [|Hno]; [done|].
      by rewrite get_prop_notin in Hne.
Qed.

Lemma keys_config a mp rp mo k :
  k ∈ (config_fields a mp rp mo).*1
  ↔ k ∈ ["components"; "remarkPlugins"; "rehypePlugins"; "remarkRehypeOptions"]
    ∨ ((k ∉ named_props) ∧ (k ∈ a.*1)).
Proof.
  unfold config_fields. rewrite !keys_set_prop, keys_merge, keys_rest.
  change (([] : fields).*1) with (@nil string).
  rewrite !elem_of_cons, !elem_of_nil. tauto.
Qed.

Lemma NoDup_config a mp rp mo :
  NoDup a.*1 → NoDup (config_fields a mp rp mo).*1.
Proof.
  intros Hnd. unfold config_fields.
  do 4 apply NoDup_set_prop. apply NoDup_merge. apply NoDup_nil_2.
Qed.
End reading.

Lemma composes_passed fallback h a Mk el h' :
  composes fallback h a Mk el h' →
  ∃ mp rp mo entry allowed pt,
    h ⊆ h'
    ∧ el_type el = Mk
    ∧ passed_props h' el = Some (config_fields a mp rp mo)
    ∧ passed_list "remarkPlugins" h' el = Some
        ([remarkMdx] ++ elems_or_empty h (get_prop "remarkPlugins" a)
         ++ [remarkUnravelMdx]
         ++ elems_or_empty h (get_prop "remarkMdxPlugins" a))%list
    ∧ passed_list "rehypePlugins" h' el = Some
        ([entry] ++ elems_or_empty h (get_prop "rehypePlugins" a))%list
    ∧ first_rehype_entry h' el
      = Some (rehypeMdxElements, [("allowedElements", allowed)])
    ∧ passed_allowedElements h' el = Some allowed
    ∧ (if truthy (get_prop "components" a)
       then array_at h' allowed = Some
              (VStr <$> own_keys (fields_or_empty h (get_prop "components" a)))
       else allowed = fallback (get_prop "components" a))
    ∧ passed_options h' el = Some
        (merge_fields [("passThrough", pt)]
           (fields_or_empty h (get_prop "remarkRehypeOptions" a)))
    ∧ array_at h' pt = Some [VStr "mdxJsxFlowElement"; VStr "mdxJsxTextElement"].
Proof.
  intros (mp & rp & mo & entry & opts & allowed & pt & Hsub & Hty & Hcfg
          & Hmp & Hrp & Hentry & Hopts & Hallowed & Hmo & Hpt).
  assert (passed_list "remarkPlugins" h' el = Some
        ([remarkMdx] ++ elems_or_empty h (get_prop "remarkPlugins" a)
         ++ [remarkUnravelMdx]
         ++ elems_or_empty h (get_prop "remarkMdxPlugins" a))%list) as Hremark.
  { unfold passed_list, passed_props. rewrite Hcfg. simpl.
    by rewrite get_config_remarkPlugins. }
  assert (passed_list "rehypePlugins" h' el = Some
        ([entry] ++ elems_or_empty h (get_prop "rehypePlugins" a))%list)
    as Hrehype.
  { unfold passed_list, passed_props. rewrite Hcfg. simpl.
    by rewrite get_config_rehypePlugins. }
  assert (first_rehype_entry h' el
          = Some (rehypeMdxElements, [("allowedElements", allowed)])) as Hfirst.
  { unfold first_rehype_entry. rewrite Hrehype. simpl.
    rewrite Hentry. simpl. by rewrite Hopts. }
  exists mp, rp, mo, entry, allowed, pt.
  repeat split; try done.
  - unfold passed_allowedElements. by rewrite Hfirst.
  - unfold passed_options, passed_props. rewrite Hcfg. simpl.
    by rewrite get_config_remarkRehypeOptions.
Qed.

(** The two revisions differ on [components: null] only: the allowlist
    option is [undefined] in the current one and [null] in the earlier. *)
Example revisions_on_null_components :
  (∃ el h', withMdx Markdown (VRef 1%positive) null_map_heap = Ok el h'
            ∧ passed_allowedElements h' el = Some VUndefined)
  ∧ (∃ el h', Part000.withMdx Markdown (VRef 1%positive) null_map_heap = Ok el h'
              ∧ passed_allowedElements h' el = Some VNull).
Proof. split; eexists _, _; (split; [vm_compute; reflexivity|by vm_compute]). Qed.

(** * Specification properties *)

(** ** Allowlist derivation *)

(** Keys that are not array indices are enumerated in creation order. *)
Lemma own_keys_plain (fs : fields) :
  Forall (λ e, array_index e.1 = None) fs → own_keys fs = fs.*1.
Proof. intros Hall. unfold own_keys. by rewrite own_entries_plain. Qed.

(** C1.  For every components map supplied to the wrapped component, the
    [allowedElements] option given to [rehypeMdxElements] is a list holding
    exactly the keys of that map, in the order [Object.keys] enumerates
    them: the same keys as the map, and in creation order when no key is an
    array index.  This holds for both revisions of the wrapper. *)
Theorem allowlist_is_components_keys Mk arg h a comps :
  typed_WithMdxOptions h arg = true →
  record_at h arg = Some a →
  record_at h (get_prop "components" a) = Some comps →
  (∃ el h' allowed,
      withMdx Mk arg h = Ok el h'
      ∧ passed_allowedElements h' el = Some allowed
      ∧ array_at h' allowed = Some (VStr <$> own_keys comps))
  ∧ (∃ el h' allowed,
      Part000.withMdx Mk arg h = Ok el h'
      ∧ passed_allowedElements h' el = Some allowed
      ∧ array_at h' allowed = Some (VStr <$> own_keys comps))
  ∧ (∀ k, k ∈ own_keys comps ↔ k ∈ comps.*1)
  ∧ (Forall (λ e, array_index e.1 = None) comps → own_keys comps = comps.*1).
Proof.
  intros Hty Ha Hcomps.
  destruct (wrapper_returns Mk _ _ Hty)
    as (a' & Ha' & (el & h' & Hrun & Hc) & (el2 & h2 & Hrun2 & Hc2)).
  assert (a' = a) as -> by congruence.
  assert (truthy (get_prop "components" a) = true) as Htruthy.
  { destruct (get_prop "components" a); done. }
  apply composes_passed in Hc
    as (? & ? & ? & ? & allowed & ? & _ & _ & _ & _ & _ & _ & Hp & Hal & _).
  apply composes_passed in Hc2
    as (? & ? & ? & ? & allowed2 & ? & _ & _ & _ & _ & _ & _ & Hp2 & Hal2 & _).
  rewrite Htruthy in Hal, Hal2.
  unfold fields_or_empty in Hal, Hal2. rewrite Hcomps in Hal, Hal2.
  split; [by exists el, h', allowed|].
  split; [by exists el2, h2, allowed2|].
  split; [intros k; apply own_keys_elem|apply own_keys_plain].
Qed.

Lemma allowlist_is_components_keys_witness :
  (∃ el h' allowed,
      withMdx Markdown (VRef 1%positive) sample_heap = Ok el h'
      ∧ passed_allowedElements h' el = Some allowed
      ∧ array_at h' allowed = Some [VStr "TestButton"; VStr "TestAlert"])
  ∧ (∃ el h' allowed,
      Part000.withMdx Markdown (VRef 1%positive) sample_heap = Ok el h'
      ∧ passed_allowedElements h' el = Some allowed
      ∧ array_at h' allowed = Some [VStr "TestButton"; VStr "TestAlert"]).
Proof.
  destruct (allowlist_is_components_keys Markdown (VRef 1%positive) sample_heap
              sample_props sample_components eq_refl eq_refl eq_refl)
    as (Hcur & Hold & _).
  split; [exact Hcur|exact Hold].
Defined.

(** ** Plugin lists *)

(** C3 as stated fails: with one caller-supplied remark plugin the merged
    remark list is [remarkMdx; customRemarkPlugin; remarkUnravelMdx], which is
    not the required plugins followed by the caller's; the required
    [remarkUnravelMdx] comes after the caller's plugin. *)
Lemma required_plugins_not_all_first :
  ∃ el h' merged,
    withMdx Markdown (VRef 1%positive) sample_heap = Ok el h'
    ∧ passed_list "remarkPlugins" h' el = Some merged
    ∧ merged = [remarkMdx; VFun "customRemarkPlugin"; remarkUnravelMdx]
    ∧ merged ≠ ([remarkMdx; remarkUnravelMdx]
                ++ elems_or_empty sample_heap (get_prop "remarkPlugins" sample_props)
                ++ elems_or_empty sample_heap (get_prop "remarkMdxPlugins" sample_props))%list.
Proof.
  eexists _, _, _. split; [vm_compute; reflexivity|].
  split; [vm_compute; reflexivity|].
  split; [reflexivity|]. vm_compute. discriminate.
Qed.

(** C3, amended.  The merged remark list is [remarkMdx], the caller's
    [remarkPlugins], [remarkUnravelMdx], then the caller's [remarkMdxPlugins];
    the merged rehype list is the [rehypeMdxElements] entry followed by the
    caller's [rehypePlugins].  An omitted or null list counts as empty. *)
Theorem merged_plugin_lists Mk arg h a :
  typed_WithMdxOptions h arg = true →
  record_at h arg = Some a →
  let user_remark := elems_or_empty h (get_prop "remarkPlugins" a) in
  let user_mdx := elems_or_empty h (get_prop "remarkMdxPlugins" a) in
  let user_rehype := elems_or_empty h (get_prop "rehypePlugins" a) in
  (∃ el h' entry options,
      withMdx Mk arg h = Ok el h'
      ∧ passed_list "remarkPlugins" h' el = Some
          ([remarkMdx] ++ user_remark ++ [remarkUnravelMdx] ++ user_mdx)%list
      ∧ passed_list "rehypePlugins" h' el = Some ([entry] ++ user_rehype)%list
      ∧ first_rehype_entry h' el = Some (rehypeMdxElements, options))
  ∧ (∃ el h' entry options,
      Part000.withMdx Mk arg h = Ok el h'
      ∧ passed_list "remarkPlugins" h' el = Some
          ([remarkMdx] ++ user_remark ++ [remarkUnravelMdx] ++ user_mdx)%list
      ∧ passed_list "rehypePlugins" h' el = Some ([entry] ++ user_rehype)%list
      ∧ first_rehype_entry h' el = Some (rehypeMdxElements, options)).
Proof.
  intros Hty Ha.
  destruct (wrapper_returns Mk _ _ Hty)
    as (a' & Ha' & (el & h' & Hrun & Hc) & (el2 & h2 & Hrun2 & Hc2)).
  assert (a' = a) as -> by congruence.
  apply composes_passed in Hc
    as (? & ? & ? & entry & ? & ? & _ & _ & _ & Hm & Hr & Hf & _).
  apply composes_passed in Hc2
    as (? & ? & ? & entry2 & ? & ? & _ & _ & _ & Hm2 & Hr2 & Hf2 & _).
  split; [by eexists el, h', entry, _|by eexists el2, h2, entry2, _].
Qed.

Lemma merged_plugin_lists_witness :
  ∃ el h' entry options,
    withMdx Markdown (VRef 1%positive) sample_heap = Ok el h'
    ∧ passed_list "remarkPlugins" h' el = Some
        [remarkMdx; VFun "customRemarkPlugin"; remarkUnravelMdx]
    ∧ passed_list "rehypePlugins" h' el = Some [entry]
    ∧ first_rehype_entry h' el = Some (rehypeMdxElements, options).
Proof.
  exact (proj1 (merged_plugin_lists Markdown (VRef 1%positive) sample_heap
                  sample_props eq_refl eq_refl)).
Defined.

(** C9.  When the props have no [components] key the [allowedElements]
    option is [undefined]; when [components] is an empty map it is a list
    with no element.  Either way the merged rehype list starts with the
    [rehypeMdxElements, options] entry.  Both revisions agree. *)
Theorem allowlist_absent_or_empty Mk arg h a :
  typed_WithMdxOptions h arg = true →
  record_at h arg = Some a →
  (∃ el h' entry allowed,
      withMdx Mk arg h = Ok el h'
      ∧ passed_list "rehypePlugins" h' el = Some
          ([entry] ++ elems_or_empty h (get_prop "rehypePlugins" a))%list
      ∧ first_rehype_entry h' el
        = Some (rehypeMdxElements, [("allowedElements", allowed)])
      ∧ ("components" ∉ a.*1 → allowed = VUndefined)
      ∧ (record_at h (get_prop "components" a) = Some [] →
         array_at h' allowed = Some []))
  ∧ (∃ el h' entry allowed,
      Part000.withMdx Mk arg h = Ok el h'
      ∧ passed_list "rehypePlugins" h' el = Some
          ([entry] ++ elems_or_empty h (get_prop "rehypePlugins" a))%list
      ∧ first_rehype_entry h' el
        = Some (rehypeMdxElements, [("allowedElements", allowed)])
      ∧ ("components" ∉ a.*1 → allowed = VUndefined)
      ∧ (record_at h (get_prop "components" a) = Some [] →
         array_at h' allowed = Some [])).
Proof.
  intros Hty Ha.
  destruct (wrapper_returns Mk _ _ Hty)
    as (a' & Ha' & (el & h' & Hrun & Hc) & (el2 & h2 & Hrun2 & Hc2)).
  assert (a' = a) as -> by congruence.
  apply composes_passed in Hc
    as (? & ? & ? & entry & allowed & ? & _ & _ & _ & _ & Hr & Hf & _ & Hal & _).
  apply composes_passed in Hc2
    as (? & ? & ? & entry2 & allowed2 & ? & _ & _ & _ & _ & Hr2 & Hf2 & _ & Hal2 & _).
  split.
  - exists el, h', entry, allowed. repeat split; try done.
    + intros Hout. apply get_prop_notin in Hout. by rewrite Hout in Hal.
    + intros Hempty. unfold fields_or_empty in Hal. rewrite Hempty in Hal.
      by destruct (get_prop "components" a).
  - exists el2, h2, entry2, allowed2. repeat split; try done.
    + intros Hout. apply get_prop_notin in Hout. by rewrite Hout in Hal2.
    + intros Hempty. unfold fields_or_empty in Hal2. rewrite Hempty in Hal2.
      by destruct (get_prop "components" a).
Qed.

Lemma allowlist_absent_or_empty_witness :
  (∃ el h' allowed,
      withMdx Markdown (VRef 1%positive) bare_heap = Ok el h'
      ∧ passed_allowedElements h' el = Some allowed
      ∧ allowed = VUndefined)
  ∧ (∃ el h' allowed,
      withMdx Markdown (VRef 1%positive) empty_map_heap = Ok el h'
      ∧ passed_allowedElements h' el = Some allowed
      ∧ array_at h' allowed = Some []).
Proof.
  split.
  - destruct (allowlist_absent_or_empty Markdown (VRef 1%positive) bare_heap
                bare_props eq_refl eq_refl)
      as [(el & h' & entry & allowed & Hrun & _ & Hf & Hun & _) _].
    exists el, h', allowed. split; [done|]. split.
    + unfold passed_allowedElements. by rewrite Hf.
    + apply Hun. apply (bool_decide_unpack _). exact I.
  - destruct (allowlist_absent_or_empty Markdown (VRef 1%positive)
                empty_map_heap empty_map_props eq_refl eq_refl)
      as [(el & h' & entry & allowed & Hrun & _ & Hf & _ & Hem) _].
    exists el, h', allowed. split; [done|]. split.
    + unfold passed_allowedElements. by rewrite Hf.
    + apply Hem. reflexivity.
Defined.

(** ** Option records *)

Lemma options_fields_NoDup h v :
  optional (is_options_ref h) v = true → NoDup (fields_or_empty h v).*1.
Proof.
  intros Hty%options_is_record. unfold optional, fields_or_empty in *.
  destruct (nullish v) eqn:Hn.
  - destruct v; try done; apply NoDup_nil_2.
  - simpl in Hty. apply is_record_ref_inv in Hty as (fs & -> & Hnd). done.
Qed.

Lemma merged_options_spec (user : fields) (pt : value) :
  NoDup user.*1 →
  let merged := merge_fields [("passThrough", pt)] user in
  (∀ k, get_prop k merged
        = if decide (k ∈ user.*1) then get_prop k user
          else if decide (k = "passThrough") then pt else VUndefined)
  ∧ (∀ k, k ∈ merged.*1 ↔ k = "passThrough" ∨ k ∈ user.*1).
Proof.
  intros Hnd merged. split; intros k.
  - unfold merged. rewrite get_prop_merge by done.
    destruct (decide (k ∈ user.*1)); [done|]. simpl.
    destruct (decide ("passThrough" = k)) as [<-|Hne].
    + by rewrite decide_True.
    + by rewrite decide_False.
  - unfold merged. rewrite keys_merge. simpl.
    by rewrite list_elem_of_singleton.
Qed.

(** C4.  The options given to the renderer are the shallow merge of
    [{ passThrough: ["mdxJsxFlowElement", "mdxJsxTextElement"] }] with the
    caller's record: a key of the caller's record, [passThrough] included,
    reads the caller's value; [passThrough] otherwise reads the required
    list; there is no other key.  With no caller record the result is the
    required field alone. *)
Theorem merged_remarkRehypeOptions Mk arg h a :
  typed_WithMdxOptions h arg = true →
  record_at h arg = Some a →
  let user := fields_or_empty h (get_prop "remarkRehypeOptions" a) in
  let shallow_merge (el : ReactElement) (h' : heap) :=
    ∃ merged pt,
      passed_options h' el = Some merged
      ∧ array_at h' pt
        = Some [VStr "mdxJsxFlowElement"; VStr "mdxJsxTextElement"]
      ∧ (∀ k, get_prop k merged
              = if decide (k ∈ user.*1) then get_prop k user
                else if decide (k = "passThrough") then pt else VUndefined)
      ∧ (∀ k, k ∈ merged.*1 ↔ k = "passThrough" ∨ k ∈ user.*1)
      ∧ (nullish (get_prop "remarkRehypeOptions" a) = true →
         merged = [("passThrough", pt)]) in
  (∃ el h', withMdx Mk arg h = Ok el h' ∧ shallow_merge el h')
  ∧ (∃ el h', Part000.withMdx Mk arg h = Ok el h' ∧ shallow_merge el h').
Proof.
  intros Hty Ha user shallow_merge.
  destruct (wrapper_returns Mk _ _ Hty)
    as (a' & Ha' & (el & h' & Hrun & Hc) & (el2 & h2 & Hrun2 & Hc2)).
  assert (a' = a) as -> by congruence.
  destruct (typed_WithMdxOptions_inv _ _ Hty) as (a' & Ha'' & _ & _ & _ & _ & _ & Ho).
  assert (a' = a) as -> by congruence.
  pose proof (options_fields_NoDup _ _ Ho) as Hnd. fold user in Hnd.
  assert (nullish (get_prop "remarkRehypeOptions" a) = true → user = [])
    as Hnull.
  { unfold user, fields_or_empty.
    by destruct (get_prop "remarkRehypeOptions" a). }
  apply composes_passed in Hc
    as (? & ? & ? & ? & ? & pt & _ & _ & _ & _ & _ & _ & _ & _ & Hmo & Hpt).
  apply composes_passed in Hc2
    as (? & ? & ? & ? & ? & pt2 & _ & _ & _ & _ & _ & _ & _ & _ & Hmo2 & Hpt2).
  split.
  - exists el, h'. split; [done|]. eexists _, pt. split; [exact Hmo|].
    split; [done|]. fold user.
    destruct (merged_options_spec user pt Hnd) as [Hget Hkeys].
    repeat split; try done; try apply Hkeys.
    intros ->%Hnull. done.
  - exists el2, h2. split; [done|]. eexists _, pt2. split; [exact Hmo2|].
    split; [done|]. fold user.
    destruct (merged_options_spec user pt2 Hnd) as [Hget Hkeys].
    repeat split; try done; try apply Hkeys.
    intros ->%Hnull. done.
Qed.

Lemma merged_remarkRehypeOptions_witness :
  ∃ el h' merged pt,
    withMdx Markdown (VRef 1%positive) sample_heap = Ok el h'
    ∧ passed_options h' el = Some merged
    ∧ array_at h' pt = Some [VStr "mdxJsxFlowElement"; VStr "mdxJsxTextElement"]
    ∧ get_prop "passThrough" merged = pt
    ∧ get_prop "footnoteLabel" merged = VStr "Custom footnotes".
Proof.
  destruct (merged_remarkRehypeOptions Markdown (VRef 1%positive) sample_heap
              sample_props eq_refl eq_refl)
    as [(el & h' & Hrun & merged & pt & Hm & Hpt & Hget & _) _].
  exists el, h', merged, pt. repeat split; try done; by rewrite Hget.
Defined.

(** ** Forwarded props *)

(** C6.  Every prop other than [remarkPlugins], [remarkMdxPlugins],
    [rehypePlugins] and [remarkRehypeOptions] ([components] included) reaches
    the renderer with the very value the caller gave: the same primitive or
    the same reference, and every object of the caller's store is still in
    the store unchanged. *)
Theorem unmerged_props_forwarded Mk arg h a :
  typed_WithMdxOptions h arg = true →
  record_at h arg = Some a →
  let forwarded (el : ReactElement) (h' : heap) :=
    ∃ cfg,
      el_type el = Mk
      ∧ passed_props h' el = Some cfg
      ∧ (∀ k, k ∉ merged_props →
              get_prop k cfg = get_prop k a ∧ (k ∈ a.*1 → k ∈ cfg.*1))
      ∧ (∀ l o, h !! l = Some o → h' !! l = Some o) in
  (∃ el h', withMdx Mk arg h = Ok el h' ∧ forwarded el h')
  ∧ (∃ el h', Part000.withMdx Mk arg h = Ok el h' ∧ forwarded el h').
Proof.
  intros Hty Ha forwarded.
  destruct (wrapper_returns Mk _ _ Hty)
    as (a' & Ha' & (el & h' & Hrun & Hc) & (el2 & h2 & Hrun2 & Hc2)).
  assert (a' = a) as -> by congruence.
  destruct (typed_WithMdxOptions_inv _ _ Hty) as (a' & Ha'' & Hnd & _).
  assert (a' = a) as -> by congruence.
  assert (∀ mp rp mo k, k ∉ merged_props →
            get_prop k (config_fields a mp rp mo) = get_prop k a
            ∧ (k ∈ a.*1 → k ∈ (config_fields a mp rp mo).*1)) as Hfw.
  { intros mp rp mo k Hk. split; [by apply get_config_forwarded|].
    intros Hin. apply keys_config.
    destruct (decide (k = "components")) as [->|Hne]; [left; by left|].
    right. split; [|done]. unfold named_props, merged_props in *.
    rewrite !not_elem_of_cons in *. rewrite elem_of_nil in *. tauto. }
  apply composes_passed in Hc as (? & ? & ? & ? & ? & ? & Hsub & ? & Hp & _).
  apply composes_passed in Hc2 as (? & ? & ? & ? & ? & ? & Hsub2 & ? & Hp2 & _).
  split.
  - exists el, h'. split; [done|]. eexists. split; [done|].
    split; [exact Hp|]. split; [apply Hfw|].
    intros l o Hl. by eapply lookup_weaken.
  - exists el2, h2. split; [done|]. eexists. split; [done|].
    split; [exact Hp2|]. split; [apply Hfw|].
    intros l o Hl. by eapply lookup_weaken.
Qed.

Lemma unmerged_props_forwarded_witness :
  ∃ el h' cfg,
    withMdx Markdown (VRef 1%positive) sample_heap = Ok el h'
    ∧ passed_props h' el = Some cfg
    ∧ get_prop "components" cfg = VRef 2%positive
    ∧ get_prop "children" cfg = VStr "# Test"
    ∧ get_prop "skipHtml" cfg = VBool false
    ∧ h' !! 2%positive = Some (ORecord sample_components).
Proof.
  destruct (unmerged_props_forwarded Markdown (VRef 1%positive) sample_heap
              sample_props eq_refl eq_refl)
    as [(el & h' & Hrun & cfg & _ & Hp & Hfw & Hkeep) _].
  exists el, h', cfg. split; [done|]. split; [done|].
  assert (∀ k, bool_decide (k ∉ merged_props) = true →
               get_prop k cfg = get_prop k sample_props) as Hget.
  { intros k Hk%bool_decide_eq_true. by apply Hfw. }
  repeat split.
  - by rewrite Hget.
  - by rewrite Hget.
  - by rewrite Hget.
  - by apply Hkeep.
Defined.

(** ** The wrapped component's contract *)

Section typing_weakening.
Implicit Types (h : heap) (v : value).

Lemma is_array_ref_weaken h h' v :
  h ⊆ h' → is_array_ref h v = true → is_array_ref h' v = true.
Proof.
  unfold is_array_ref. intros Hsub [xs Hxs]%bool_decide_eq_true.
  apply bool_decide_eq_true. exists xs. by eapply array_at_weaken.
Qed.

Lemma is_record_ref_weaken h h' v :
  h ⊆ h' → is_record_ref h v = true → is_record_ref h' v = true.
Proof.
  intros Hsub (fs & Hfs & Hnd)%is_record_ref_inv. unfold is_record_ref.
  rewrite (record_at_weaken _ _ _ _ Hsub Hfs). by apply bool_decide_eq_true.
Qed.

Lemma optional_weaken (p p' : value → bool) v :
  (p v = true → p' v = true) → optional p v = true → optional p' v = true.
Proof. unfold optional. destruct (nullish v); simpl; auto. Qed.

Lemma is_options_ref_weaken h h' v :
  h ⊆ h' → is_options_ref h v = true → is_options_ref h' v = true.
Proof.
  intros Hsub. unfold is_options_ref.
  destruct (record_at h v) as [fs|] eqn:Hfs; [|done].
  rewrite (record_at_weaken _ _ _ _ Hsub Hfs).
  rewrite !andb_true_iff. intros [? Hpt]. split; [done|].
  revert Hpt. apply optional_weaken. by apply is_array_ref_weaken.
Qed.

Lemma is_array_ref_at h v xs : array_at h v = Some xs → is_array_ref h v = true.
Proof. intros Hxs. apply bool_decide_eq_true. by exists xs. Qed.

Lemma optional_intro (p : value → bool) v : p v = true → optional p v = true.
Proof. unfold optional. intros ->. by destruct (nullish v). Qed.
End typing_weakening.

Lemma options_passThrough_typed h v :
  optional (is_options_ref h) v = true →
  optional (is_array_ref h) (get_prop "passThrough" (fields_or_empty h v)) = true.
Proof.
  unfold fields_or_empty. unfold optional at 1. unfold is_options_ref.
  destruct (nullish v) eqn:Hn.
  - by destruct v.
  - simpl. destruct (record_at h v) as [fs|]; [|done]. simpl.
    by intros [_ ?]%andb_true_iff.
Qed.

(** The props object a run hands over has the renderer's [Options] type. *)
Lemma composes_typed fallback h arg a Mk el h' :
  typed_WithMdxOptions h arg = true → record_at h arg = Some a →
  composes fallback h a Mk el h' →
  typed_Options h' (el_props el) = true.
Proof.
  intros (a' & Ha' & Hnd & Hc & Hr & Hm & Hh & Ho)%typed_WithMdxOptions_inv
    Ha Hcomp.
  assert (a' = a) as -> by congruence.
  apply composes_passed in Hcomp
    as (mp & rp & mo & entry & allowed & pt & Hsub & _ & Hcfg & Hremark
        & Hrehype & _ & _ & _ & Hopts & Hpt).
  unfold passed_list, passed_options in *. rewrite Hcfg in *. simpl in *.
  unfold typed_Options. unfold passed_props in Hcfg. rewrite Hcfg.
  rewrite !andb_true_iff. repeat split.
  - apply bool_decide_eq_true. by apply NoDup_config.
  - rewrite get_config_components. revert Hc. apply optional_weaken.
    by apply is_record_ref_weaken.
  - apply optional_intro. by eapply is_array_ref_at.
  - apply optional_intro. by eapply is_array_ref_at.
  - apply optional_intro. unfold is_options_ref. rewrite Hopts.
    pose proof (options_fields_NoDup _ _ Ho) as Hu.
    apply andb_true_iff. split.
    + apply bool_decide_eq_true. apply NoDup_merge. simpl. apply NoDup_singleton.
    + destruct (merged_options_spec _ pt Hu) as [Hget _]. rewrite Hget.
      destruct (decide (_ ∈ _)) as [Hin|Hout].
      * generalize (options_passThrough_typed _ _ Ho).
        apply optional_weaken. by apply is_array_ref_weaken.
      * simpl. apply optional_intro. by eapply is_array_ref_at.
Qed.

(** C7.  [withMdx] takes a renderer and returns a component whose props type
    is the renderer's [Options] plus the one optional field
    [remarkMdxPlugins]: props are well-typed for the wrapped component exactly
    when they are well-typed for the renderer and [remarkMdxPlugins] is an
    optional list; props that are valid for the renderer and do not mention
    the extra field are valid for the wrapped component; and on valid props
    the wrapped component returns an element of the renderer whose props are
    valid for the renderer, keep every other key and drop [remarkMdxPlugins]. *)
Theorem wrapped_component_contract Mk arg h a :
  record_at h arg = Some a →
  let renders (run : value → value → M ReactElement) :=
    ∃ el h' cfg,
      run Mk arg h = Ok el h'
      ∧ el_type el = Mk
      ∧ passed_props h' el = Some cfg
      ∧ typed_Options h' (el_props el) = true
      ∧ ("remarkMdxPlugins" ∉ cfg.*1)
      ∧ (∀ k, k ≠ "remarkMdxPlugins" → k ∈ a.*1 → k ∈ cfg.*1) in
  (typed_WithMdxOptions h arg = true
   ↔ typed_Options h arg = true
     ∧ optional (is_array_ref h) (get_prop "remarkMdxPlugins" a) = true)
  ∧ (typed_Options h arg = true → "remarkMdxPlugins" ∉ a.*1 →
     typed_WithMdxOptions h arg = true)
  ∧ (typed_WithMdxOptions h arg = true →
     renders withMdx ∧ renders Part000.withMdx).
Proof.
  intros Ha renders.
  assert (typed_WithMdxOptions h arg = true
          ↔ typed_Options h arg = true
            ∧ optional (is_array_ref h) (get_prop "remarkMdxPlugins" a) = true)
    as Hiff.
  { unfold typed_WithMdxOptions. by rewrite Ha, andb_true_iff. }
  split; [done|]. split.
  - intros Hty Hout. apply Hiff. split; [done|].
    by rewrite (get_prop_notin _ _ Hout).
  - intros Hty.
    destruct (wrapper_returns Mk _ _ Hty)
      as (a' & Ha' & (el & h' & Hrun & Hc) & (el2 & h2 & Hrun2 & Hc2)).
    assert (a' = a) as -> by congruence.
    pose proof (composes_typed _ _ _ _ _ _ _ Hty Ha Hc) as Hty1.
    pose proof (composes_typed _ _ _ _ _ _ _ Hty Ha Hc2) as Hty2.
    assert (∀ mp rp mo,
              ("remarkMdxPlugins" ∉ (config_fields a mp rp mo).*1)
              ∧ (∀ k, k ≠ "remarkMdxPlugins" → k ∈ a.*1 →
                      k ∈ (config_fields a mp rp mo).*1)) as Hkeys.
    { intros mp rp mo. split.
      - rewrite keys_config. intros [Hin|[Hout _]].
        + revert Hin. apply (bool_decide_unpack _). exact I.
        + apply Hout. apply (bool_decide_unpack _). exact I.
      - intros k Hk Hin. apply keys_config. unfold named_props.
        rewrite !not_elem_of_cons, !elem_of_cons, !elem_of_nil.
        destruct (decide (k = "components")); [tauto|].
        destruct (decide (k = "remarkPlugins")); [tauto|].
        destruct (decide (k = "rehypePlugins")); [tauto|].
        destruct (decide (k = "remarkRehypeOptions")); tauto. }
    apply composes_passed in Hc as (mp & rp & mo & ? & ? & ? & _ & ? & Hp & _).
    apply composes_passed in Hc2 as (mp2 & rp2 & mo2 & ? & ? & ? & _ & ? & Hp2 & _).
    split.
    + exists el, h', (config_fields a mp rp mo).
      destruct (Hkeys mp rp mo). by repeat split.
    + exists el2, h2, (config_fields a mp2 rp2 mo2).
      destruct (Hkeys mp2 rp2 mo2). by repeat split.
Qed.

Lemma wrapped_component_contract_witness :
  typed_WithMdxOptions full_heap (VRef 1%positive) = true
  ∧ ∃ el h' cfg,
      withMdx Markdown (VRef 1%positive) full_heap = Ok el h'
      ∧ el_type el = Markdown
      ∧ passed_props h' el = Some cfg
      ∧ typed_Options h' (el_props el) = true
      ∧ ("remarkMdxPlugins" ∉ cfg.*1)
      ∧ ("disallowedElements" ∈ cfg.*1).
Proof.
  split; [reflexivity|].
  destruct (wrapped_component_contract Markdown (VRef 1%positive) full_heap
              full_props eq_refl)
    as (_ & _ & Hrun).
  destruct (Hrun eq_refl) as [(el & h' & cfg & ? & ? & ? & ? & ? & Hkeep) _].
  exists el, h', cfg. repeat split; try done.
  apply Hkeep; [done|]. apply (bool_decide_unpack _). exact I.
Defined.

(** ** Determinism and absence of writes *)

Section store_extension.
Implicit Types (h : heap) (v : value).

Lemma elems_or_empty_weaken h h' v :
  h ⊆ h' → optional (is_array_ref h) v = true →
  elems_or_empty h' v = elems_or_empty h v.
Proof.
  intros Hsub Hty. unfold optional, elems_or_empty in *.
  destruct (nullish v) eqn:Hn; [by destruct v|]. simpl in Hty.
  apply bool_decide_eq_true in Hty as [xs Hxs].
  by rewrite Hxs, (array_at_weaken _ _ _ _ Hsub Hxs).
Qed.

Lemma fields_or_empty_weaken h h' v :
  h ⊆ h' → optional (is_record_ref h) v = true →
  fields_or_empty h' v = fields_or_empty h v.
Proof.
  intros Hsub Hty. unfold optional, fields_or_empty in *.
  destruct (nullish v) eqn:Hn; [by destruct v|]. simpl in Hty.
  apply is_record_ref_inv in Hty as (fs & Hfs & _).
  by rewrite Hfs, (record_at_weaken _ _ _ _ Hsub Hfs).
Qed.

Lemma deref_weaken h h' v :
  h ⊆ h' → optional (is_array_ref h) v = true → deref h' v = deref h v.
Proof.
  intros Hsub Hty. unfold optional, deref in *.
  destruct (nullish v) eqn:Hn; [by destruct v|]. simpl in Hty.
  apply bool_decide_eq_true in Hty as [xs Hxs].
  by rewrite Hxs, (array_at_weaken _ _ _ _ Hsub Hxs).
Qed.

Lemma deref_nullish h v : nullish v = true → deref h v = inl v.
Proof. by destruct v. Qed.

Lemma typed_WithMdxOptions_weaken h h' arg a :
  h ⊆ h' → typed_WithMdxOptions h arg = true → record_at h arg = Some a →
  typed_WithMdxOptions h' arg = true ∧ record_at h' arg = Some a.
Proof.
  intros Hsub (a' & Ha' & Hnd & Hc & Hr & Hm & Hh & Ho)%typed_WithMdxOptions_inv
    Ha.
  assert (a' = a) as -> by congruence.
  pose proof (record_at_weaken _ _ _ _ Hsub Ha) as Ha1.
  split; [|done].
  unfold typed_WithMdxOptions, typed_Options. rewrite Ha1.
  rewrite !andb_true_iff. repeat split.
  - by apply bool_decide_eq_true.
  - revert Hc. apply optional_weaken. by apply is_record_ref_weaken.
  - revert Hr. apply optional_weaken. by apply is_array_ref_weaken.
  - revert Hh. apply optional_weaken. by apply is_array_ref_weaken.
  - revert Ho. apply optional_weaken. by apply is_options_ref_weaken.
  - revert Hm. apply optional_weaken. by apply is_array_ref_weaken.
Qed.
End store_extension.

Lemma forwarded_set_prop k v (fs : fields) :
  k ∈ merged_props →
  filter (λ e, e.1 ∉ merged_props) (set_prop k v fs)
  = filter (λ e, e.1 ∉ merged_props) fs.
Proof.
  intros Hk. induction fs as [|[k0 v0] fs IH]; simpl.
  - rewrite filter_cons. simpl. by rewrite decide_False by (intros Hn; by apply Hn).
  - destruct (decide (k0 = k)) as [->|Hne].
    + rewrite !filter_cons. simpl.
      by rewrite !decide_False by (intros Hn; by apply Hn).
    + rewrite !filter_cons. simpl. by rewrite IH.
Qed.

(** Two merges that differ only in the value first put under [k0]: either
    the source overrides it and the results coincide, or it survives in
    first place and the remainders coincide. *)
Lemma foldl_set_head k0 (v0 v0' : value) (t es : fields) :
  (k0 ∈ es.*1
   ∧ foldl (λ acc e, set_prop e.1 e.2 acc) ((k0, v0) :: t) es
     = foldl (λ acc e, set_prop e.1 e.2 acc) ((k0, v0') :: t) es)
  ∨ ((k0 ∉ es.*1)
     ∧ ∃ tl,
         foldl (λ acc e, set_prop e.1 e.2 acc) ((k0, v0) :: t) es
         = (k0, v0) :: tl
         ∧ foldl (λ acc e, set_prop e.1 e.2 acc) ((k0, v0') :: t) es
           = (k0, v0') :: tl).
Proof.
  revert t. induction es as [|[k1 v1] es IH]; intros t; simpl.
  - right. split; [by intros ?%elem_of_nil|]. by exists t.
  - destruct (decide (k0 = k1)) as [->|Hne].
    + left. split; [by left|]. done.
    + destruct (IH (set_prop k1 v1 t)) as [[Hin Heq]|(Hout & tl & H1 & H2)].
      * left. split; [by right|done].
      * right. split; [|by exists tl].
        rewrite not_elem_of_cons. done.
Qed.

Lemma options_view_merge h h1 h2 (user : fields) pt1 pt2 xs :
  NoDup user.*1 → h ⊆ h1 → h ⊆ h2 →
  optional (is_array_ref h) (get_prop "passThrough" user) = true →
  array_at h1 pt1 = Some xs → array_at h2 pt2 = Some xs →
  options_view h1 (merge_fields [("passThrough", pt1)] user)
  = options_view h2 (merge_fields [("passThrough", pt2)] user).
Proof.
  intros Hnd Hsub1 Hsub2 Hty Hpt1 Hpt2.
  pose proof (NoDup_merge [("passThrough", pt1)] user (NoDup_singleton _)) as Hnd1.
  pose proof (get_prop_merge "passThrough" [("passThrough", pt1)] user Hnd) as Hget.
  pose proof (keys_merge "passThrough" [("passThrough", pt1)] user) as Hkeys.
  unfold merge_fields in *.
  destruct (foldl_set_head "passThrough" pt1 pt2 [] (own_entries user))
    as [[Hin Heq]|(Hout & tl & H1 & H2)].
  - rewrite <- Heq.
    set (mo := foldl _ _ _) in *.
    apply Forall_fmap_ext, Forall_forall. intros [k v] Hkv. simpl.
    destruct (decide (k = "passThrough")) as [->|]; [|done].
    f_equal. apply (get_prop_elem _ _ _ Hnd1) in Hkv. rewrite <- Hkv, Hget.
    apply (own_keys_elem _ user) in Hin.
    rewrite decide_True by done.
    by rewrite (deref_weaken _ _ _ Hsub1 Hty), (deref_weaken _ _ _ Hsub2 Hty).
  - rewrite H1, H2. rewrite H1 in Hnd1.
    unfold options_view. rewrite !fmap_cons. simpl.
    f_equal.
    + f_equal. unfold deref. by rewrite Hpt1, Hpt2.
    + apply Forall_fmap_ext, Forall_forall. intros [k v] Hkv. simpl.
      destruct (decide (k = "passThrough")) as [->|]; [exfalso|done].
      simpl in Hnd1. apply NoDup_cons in Hnd1 as [Hno _]. apply Hno.
      apply list_elem_of_fmap. by exists ("passThrough", v).
Qed.

Lemma composes_observe fallback h a Mk el h' :
  composes fallback h a Mk el h' →
  ∃ allowed pt,
    (if truthy (get_prop "components" a)
     then array_at h' allowed = Some
            (VStr <$> own_keys (fields_or_empty h (get_prop "components" a)))
     else allowed = fallback (get_prop "components" a))
    ∧ array_at h' pt = Some [VStr "mdxJsxFlowElement"; VStr "mdxJsxTextElement"]
    ∧ observe h' el = Some {|
        ob_renderer := Mk;
        ob_remarkPlugins :=
          [remarkMdx] ++ elems_or_empty h (get_prop "remarkPlugins" a)
          ++ [remarkUnravelMdx]
          ++ elems_or_empty h (get_prop "remarkMdxPlugins" a);
        ob_rehype_plugin := rehypeMdxElements;
        ob_rehype_options := [("allowedElements", deref h' allowed)];
        ob_rehype_user := elems_or_empty h (get_prop "rehypePlugins" a);
        ob_remarkRehypeOptions :=
          options_view h'
            (merge_fields [("passThrough", pt)]
               (fields_or_empty h (get_prop "remarkRehypeOptions" a)));
        ob_forwarded :=
          filter (λ e, e.1 ∉ merged_props)
            (set_prop "components" (get_prop "components" a)
               (merge_fields [] (rest_props named_props a)));
      |}.
Proof.
  intros (mp & rp & mo & entry & allowed & pt & _ & Hty & Hcfg & Hremark
          & Hrehype & Hfirst & _ & Hallowed & Hopts & Hpt)%composes_passed.
  exists allowed, pt. split; [done|]. split; [done|].
  unfold observe. rewrite Hcfg, Hremark, Hrehype, Hfirst, Hopts. simpl.
  rewrite Hty. do 2 f_equal.
  unfold config_fields.
  by do 3 (rewrite forwarded_set_prop
             by (apply (bool_decide_unpack _); exact I)).
Qed.

Lemma typed_falsy_nullish h v :
  optional (is_record_ref h) v = true → truthy v = false → nullish v = true.
Proof. unfold optional, is_record_ref. by destruct v. Qed.

(** Two runs on props with the same fields, in stores that extend the one
    the props were typed in, observe the same configuration. *)
Lemma composes_observe_eq fallback h h1 h2 arg a Mk el1 h1' el2 h2' :
  (∀ c, nullish c = true → nullish (fallback c) = true) →
  typed_WithMdxOptions h arg = true → record_at h arg = Some a →
  h ⊆ h1 → h ⊆ h2 →
  composes fallback h1 a Mk el1 h1' → composes fallback h2 a Mk el2 h2' →
  ∃ ob, observe h1' el1 = Some ob ∧ observe h2' el2 = Some ob.
Proof.
  intros Hfb (a' & Ha' & Hnd & Hc & Hr & Hm & Hh & Ho)%typed_WithMdxOptions_inv
    Ha Hsub1 Hsub2 Hc1 Hc2.
  assert (a' = a) as -> by congruence.
  pose proof Hc1 as (_ & _ & _ & _ & _ & _ & _ & Hsub1' & _).
  pose proof Hc2 as (_ & _ & _ & _ & _ & _ & _ & Hsub2' & _).
  apply composes_observe in Hc1 as (al1 & pt1 & Hal1 & Hpt1 & Hob1).
  apply composes_observe in Hc2 as (al2 & pt2 & Hal2 & Hpt2 & Hob2).
  eexists. split; [exact Hob1|]. rewrite Hob2. do 2 f_equal.
  - by rewrite !(elems_or_empty_weaken h h1), !(elems_or_empty_weaken h h2).
  - do 2 f_equal.
    destruct (truthy (get_prop "components" a)) eqn:Htr.
    + unfold deref. rewrite Hal1, Hal2.
      by rewrite (fields_or_empty_weaken h h1), (fields_or_empty_weaken h h2).
    + subst al1 al2.
      pose proof (Hfb _ (typed_falsy_nullish _ _ Hc Htr)) as Hn.
      by rewrite !deref_nullish.
  - by rewrite (elems_or_empty_weaken h h1), (elems_or_empty_weaken h h2).
  - rewrite (fields_or_empty_weaken h h1), (fields_or_empty_weaken h h2);
      try done; try by apply options_is_record.
    eapply (options_view_merge h);
      [by apply options_fields_NoDup|by trans h2|by trans h1
      |by apply options_passThrough_typed|done|done].
Qed.

(** C8.  The composition is a function of the props alone and writes to no
    existing object.  Take props objects with the same fields, well-typed in
    a store [h], and run the wrapper on them in any two stores that extend
    [h]: both runs return, the remark list, the rehype list, the merged
    options and the forwarded props they hand over are observed equal, and
    each run leaves every object of its starting store as it was.  The same
    holds for the earlier revision. *)
Theorem composition_deterministic Mk arg1 arg2 h h1 h2 a :
  typed_WithMdxOptions h arg1 = true →
  record_at h arg1 = Some a →
  record_at h arg2 = Some a →
  h ⊆ h1 → h ⊆ h2 →
  let same_result (run : value → value → M ReactElement) :=
    ∃ el1 h1' el2 h2' ob,
      run Mk arg1 h1 = Ok el1 h1'
      ∧ run Mk arg2 h2 = Ok el2 h2'
      ∧ observe h1' el1 = Some ob
      ∧ observe h2' el2 = Some ob
      ∧ (∀ l o, h1 !! l = Some o → h1' !! l = Some o)
      ∧ (∀ l o, h2 !! l = Some o → h2' !! l = Some o) in
  same_result withMdx ∧ same_result Part000.withMdx.
Proof.
  intros Hty Ha Ha2 Hsub1 Hsub2 same_result.
  assert (typed_WithMdxOptions h arg2 = true) as Hty2.
  { revert Hty. unfold typed_WithMdxOptions, typed_Options.
    by rewrite Ha, Ha2. }
  destruct (typed_WithMdxOptions_weaken _ _ _ _ Hsub1 Hty Ha) as [Hty1' Ha1'].
  destruct (typed_WithMdxOptions_weaken _ _ _ _ Hsub2 Hty2 Ha2) as [Hty2' Ha2'].
  destruct (wrapper_returns Mk _ _ Hty1')
    as (a' & Ha' & (el1 & h1' & Hrun1 & Hc1) & (el1b & h1b & Hrun1b & Hc1b)).
  assert (a' = a) as -> by congruence.
  destruct (wrapper_returns Mk _ _ Hty2')
    as (a' & Ha'' & (el2 & h2' & Hrun2 & Hc2) & (el2b & h2b & Hrun2b & Hc2b)).
  assert (a' = a) as -> by congruence.
  assert (∀ fb (el : ReactElement) hs hs',
            composes fb hs a Mk el hs' →
            ∀ l o, hs !! l = Some o → hs' !! l = Some o) as Hkeep.
  { intros fb el hs hs' (_ & _ & _ & _ & _ & _ & _ & Hs & _) l o Hl.
    by eapply lookup_weaken. }
  split.
  - destruct (composes_observe_eq (λ _, VUndefined) h h1 h2 arg1 a Mk
                el1 h1' el2 h2') as (ob & Hob1 & Hob2); try done.
    exists el1, h1', el2, h2', ob. repeat split; try done; by eapply Hkeep.
  - destruct (composes_observe_eq (λ c, c) h h1 h2 arg1 a Mk
                el1b h1b el2b h2b) as (ob & Hob1 & Hob2); try done.
    exists el1b, h1b, el2b, h2b, ob. repeat split; try done; by eapply Hkeep.
Qed.

Lemma composition_deterministic_witness :
  ∃ el1 h1' el2 h2' ob,
    withMdx Markdown (VRef 1%positive) full_heap = Ok el1 h1'
    ∧ withMdx Markdown (VRef 1%positive) later_heap = Ok el2 h2'
    ∧ observe h1' el1 = Some ob
    ∧ observe h2' el2 = Some ob
    ∧ h1' !! 3%positive = Some (OArray [VFun "customRemarkPlugin"]).
Proof.
  assert (full_heap ⊆ later_heap) as Hsub.
  { apply insert_subseteq. reflexivity. }
  destruct (composition_deterministic Markdown (VRef 1%positive)
              (VRef 1%positive) full_heap full_heap later_heap full_props
              eq_refl eq_refl eq_refl (reflexivity _) Hsub)
    as [(el1 & h1' & el2 & h2' & ob & ? & ? & ? & ? & Hkeep & _) _].
  exists el1, h1', el2, h2', ob. repeat split; try done.
  by apply Hkeep.
Defined.

(** ** [mdxComponent] *)

Section exact_steps.
Implicit Types (h : heap) (v : value).

Lemma read_record_ok h v fs :
  record_at h v = Some fs → read_record v h = Ok fs h.
Proof.
  unfold read_record. destruct v as [| | | | | |l]; simpl; try done.
  destruct (h !! l) as [[]|]; try done. by intros [= ->].
Qed.

Lemma object_spread_ok target h v :
  optional (is_record_ref h) v = true →
  object_spread target v h = Ok (merge_fields target (fields_or_empty h v)) h.
Proof.
  intros Hty. unfold object_spread, fields_or_empty, optional in *.
  destruct (nullish v) eqn:Hn; [by destruct v|]. simpl in Hty.
  apply is_record_ref_inv in Hty as (fs & Hfs & _).
  unfold bind. by rewrite (read_record_ok _ _ _ Hfs), Hfs.
Qed.

Lemma typed_ComponentProps_inv h arg a :
  typed_ComponentProps h arg = true → record_at h arg = Some a →
  let node := get_prop "node" a in
  nullish node = true
  ∨ (nullish node = false
     ∧ ∃ n, record_at h node = Some n
            ∧ optional (is_record_ref h) (get_prop "properties" n) = true).
Proof.
  unfold typed_ComponentProps. intros Hty Ha. rewrite Ha in Hty. simpl.
  destruct (nullish (get_prop "node" a)); [by left|]. right.
  split; [done|]. simpl in Hty.
  destruct (record_at h (get_prop "node" a)) as [n|]; [|done]. by exists n.
Qed.
End exact_steps.

(** The component builds the candidate object, runs the validator on it and
    renders what the validator returns. *)
Lemma ReactMarkownComponent_run Component validator arg h a :
  typed_ComponentProps h arg = true → record_at h arg = Some a →
  let lc := fresh (dom h) in
  let h1 := <[lc := ORecord (candidate_props h a)]> h in
  ReactMarkownComponent Component validator arg h
  = (props <- validator (VRef lc) ;; render_validated Component props) h1.
Proof.
  intros Hty Ha lc h1.
  unfold ReactMarkownComponent, bind at 1. rewrite (read_record_ok _ _ _ Ha).
  unfold candidate_props, node_fields, node_properties in *.
  destruct (typed_ComponentProps_inv _ _ _ Hty Ha)
    as [Hn|(Hn & n & Hnode & Hprops)]; simpl in Hn; subst lc h1; rewrite Hn.
  - unfold bind at 1. unfold ret at 1. unfold bind at 1.
    by rewrite object_spread_ok.
  - unfold bind at 1. unfold bind at 1.
    rewrite (read_record_ok _ _ _ Hnode). unfold ret at 1.
    unfold bind at 1. rewrite (object_spread_ok _ _ _ Hprops).
    unfold fields_or_empty at 3. by rewrite Hnode.
Qed.

Lemma render_validated_ok Component props h pf :
  record_at h props = Some pf →
  let l := fresh (dom h) in
  render_validated Component props h
  = Ok (mkElement Component (VRef l)) (<[l := ORecord (merge_fields [] pf)]> h).
Proof.
  intros Hpf l. unfold render_validated, bind, object_spread.
  assert (nullish props = false) as -> by (by destruct props).
  unfold bind. by rewrite (read_record_ok _ _ _ Hpf).
Qed.

(** C5.  The function [mdxComponent] returns first runs the validator, on a
    new object that merges the node's properties with [children]; the store
    the validator sees is the caller's plus that object.  If the validator
    throws, the function throws the same value and returns no element, so the
    component is never rendered.  If it returns an object, the function
    returns the element of the given component whose props are a copy of the
    validated object. *)
Theorem validation_guards_rendering Component validator arg h a :
  typed_ComponentProps h arg = true →
  record_at h arg = Some a →
  let lc := fresh (dom h) in
  let h1 := <[lc := ORecord (candidate_props h a)]> h in
  h !! lc = None
  ∧ match validator (VRef lc) h1 with
    | Throw e h2 =>
        mdxComponent Component validator arg h = Throw e h2
    | Ok props h2 =>
        ∀ pf, record_at h2 props = Some pf →
          ∃ cfg h3,
            mdxComponent Component validator arg h
            = Ok (mkElement Component cfg) h3
            ∧ record_at h3 cfg = Some (merge_fields [] pf)
            ∧ (NoDup pf.*1 →
               ∀ k, get_prop k (merge_fields [] pf) = get_prop k pf)
            ∧ (∀ l o, h2 !! l = Some o → h3 !! l = Some o)
    | Stuck => mdxComponent Component validator arg h = Stuck
    end.
Proof.
  intros Hty Ha lc h1.
  split; [apply not_elem_of_dom, is_fresh|].
  unfold mdxComponent.
  rewrite (ReactMarkownComponent_run _ _ _ _ _ Hty Ha). fold lc h1.
  destruct (validator (VRef lc) h1) as [props h2|e h2|] eqn:Hv;
    unfold bind; rewrite Hv; try done.
  intros pf Hpf. rewrite (render_validated_ok _ _ _ _ Hpf).
  eexists _, _. split; [done|].
  assert (h2 !! fresh (dom h2) = None) as Hfresh
    by apply not_elem_of_dom, is_fresh.
  split; [simpl; by rewrite lookup_insert_eq|]. split.
  - intros Hnd k. rewrite get_prop_merge by done.
    destruct (decide (k ∈ pf.*1)) as [|Hout]; [done|].
    simpl. by rewrite get_prop_notin.
  - intros l o Hl. eapply lookup_weaken; [done|]. by apply insert_subseteq.
Qed.

Lemma validation_guards_rendering_witness :
  (∃ h2, mdxComponent CustomCard card_validator (VRef 1%positive) bad_card
         = Throw (VStr "ZodError") h2)
  ∧ (∃ cfg h3,
       mdxComponent CustomCard card_validator (VRef 1%positive) good_card
       = Ok (mkElement CustomCard cfg) h3
       ∧ record_at h3 cfg = Some [("title", VStr "Welcome");
                                  ("children", VStr "Hello There!")]).
Proof.
  split.
  - destruct (validation_guards_rendering CustomCard card_validator
                (VRef 1%positive) bad_card card_props eq_refl eq_refl)
      as [_ Hrun].
    eexists. exact Hrun.
  - destruct (validation_guards_rendering CustomCard card_validator
                (VRef 1%positive) good_card card_props eq_refl eq_refl)
      as [_ Hrun].
    destruct (Hrun _ eq_refl) as (cfg & h3 & Heq & Hcfg & _).
    exists cfg, h3. split; [exact Heq|exact Hcfg].
Defined.

(** C10.  The object the validator is run on maps ["children"] to the
    [children] argument, whatever the node's properties hold under that key;
    every other key reads as in the node's properties; and without a node the
    object has the [children] key alone. *)
Theorem validated_object_children Component validator arg h a :
  typed_ComponentProps h arg = true →
  record_at h arg = Some a →
  let children := get_prop "children" a in
  let properties := node_fields h (get_prop "node" a) in
  ∃ lc candidate,
    h !! lc = None
    ∧ mdxComponent Component validator arg h
      = (props <- validator (VRef lc) ;; render_validated Component props)
          (<[lc := ORecord candidate]> h)
    ∧ get_prop "children" candidate = children
    ∧ "children" ∈ candidate.*1
    ∧ (∀ k, k ≠ "children" → get_prop k candidate = get_prop k properties)
    ∧ (nullish (get_prop "node" a) = true →
       candidate = [("children", children)]).
Proof.
  intros Hty Ha children properties.
  exists (fresh (dom h)), (candidate_props h a).
  split; [apply not_elem_of_dom, is_fresh|].
  split; [by apply ReactMarkownComponent_run|].
  unfold candidate_props. fold children properties.
  split; [by rewrite get_prop_set_prop, decide_True|].
  split; [apply keys_set_prop; by left|]. split.
  - intros k Hk. rewrite get_prop_set_prop, decide_False by done.
    destruct (typed_ComponentProps_inv _ _ _ Hty Ha)
      as [Hn|(Hn & n & Hnode & Hprops)]; simpl in Hn.
    + unfold properties, node_fields. by rewrite Hn.
    + rewrite get_prop_merge; [|].
      * destruct (decide (k ∈ properties.*1)) as [|Hout]; [done|].
        simpl. by rewrite get_prop_notin.
      * unfold properties, node_fields. rewrite Hn.
        unfold fields_or_empty at 2. rewrite Hnode. simpl.
        unfold optional, fields_or_empty in *.
        destruct (nullish (get_prop "properties" n)) eqn:Hnp.
        { destruct (get_prop "properties" n); try done; apply NoDup_nil_2. }
        simpl in Hprops. by apply is_record_ref_inv in Hprops as (fs & -> & ?).
  - intros Hn. unfold properties, node_fields. by rewrite Hn.
Qed.

Lemma validated_object_children_witness :
  (∃ lc candidate,
      mdxComponent CustomCard card_validator (VRef 1%positive) good_card
      = (props <- card_validator (VRef lc) ;;
         render_validated CustomCard props) (<[lc := ORecord candidate]> good_card)
      ∧ get_prop "children" candidate = VStr "Hello There!"
      ∧ get_prop "title" candidate = VStr "Welcome")
  ∧ (∃ lc candidate,
      mdxComponent CustomCard card_validator (VRef 1%positive) nodeless_heap
      = (props <- card_validator (VRef lc) ;;
         render_validated CustomCard props)
          (<[lc := ORecord candidate]> nodeless_heap)
      ∧ candidate = [("children", VStr "Hello There!")]).
Proof.
  split.
  - destruct (validated_object_children CustomCard card_validator
                (VRef 1%positive) good_card card_props eq_refl eq_refl)
      as (lc & candidate & _ & Hrun & Hch & _ & Hother & _).
    exists lc, candidate. split; [exact Hrun|]. split; [exact Hch|].
    by rewrite Hother.
  - destruct (validated_object_children CustomCard card_validator
                (VRef 1%positive) nodeless_heap nodeless_props eq_refl eq_refl)
      as (lc & candidate & _ & Hrun & _ & _ & _ & Hnone).
    exists lc, candidate. split; [exact Hrun|]. by apply Hnone.
Defined.

(** * Further properties of the code *)

(** ** The two revisions of [withMdx] *)

Lemma bind_read_record_ext {B} arg h (k1 k2 : fields → M B) :
  (∀ a, record_at h arg = Some a → k1 a h = k2 a h) →
  bind (read_record arg) k1 h = bind (read_record arg) k2 h.
Proof.
  intros Hk. unfold bind.
  destruct (read_record arg h) as [a h'|e h'|] eqn:Hread; try done.
  assert (record_at h arg = Some a ∧ h' = h) as [Ha ->].
  { unfold read_record in Hread. destruct arg as [| | | | | |l]; try done.
    simpl. destruct (h !! l) as [[]|]; try done.
    by injection Hread as -> ->. }
  by apply Hk.
Qed.

(** X1.  On every well-typed props object whose [components] is not [null]
    the earlier revision ([components && Object.keys(components)]) and the
    current one ([components ? Object.keys(components) : undefined]) return
    the same element and leave the same store. *)
Theorem revisions_agree_unless_null Mk arg h a :
  typed_WithMdxOptions h arg = true →
  record_at h arg = Some a →
  get_prop "components" a ≠ VNull →
  Part000.withMdx Mk arg h = withMdx Mk arg h.
Proof.
  intros (a' & Ha' & _ & Hc & _)%typed_WithMdxOptions_inv Ha Hnull.
  assert (a' = a) as -> by congruence.
  unfold Part000.withMdx, withMdx, Part000.ReactMarkdownWithMdx,
    ReactMarkdownWithMdx.
  apply bind_read_record_ext. intros a2 Ha2.
  assert (a2 = a) as -> by congruence. cbv beta zeta.
  assert (Part000.allowedComponents (get_prop "components" a)
          = allowedComponents (get_prop "components" a)) as ->; [|done].
  unfold Part000.allowedComponents, allowedComponents.
  destruct (get_prop "components" a); try done.
Qed.

Lemma revisions_agree_unless_null_witness :
  Part000.withMdx Markdown (VRef 1%positive) full_heap
  = withMdx Markdown (VRef 1%positive) full_heap.
Proof.
  apply (revisions_agree_unless_null Markdown (VRef 1%positive) full_heap
           full_props eq_refl eq_refl).
  discriminate.
Defined.

(** X2.  On every well-typed props object whose [components] is [null] the
    two revisions differ in the allowlist they hand to [rehypeMdxElements]:
    the current one passes [undefined], the earlier one passes [null]. *)
Theorem revisions_differ_on_null Mk arg h a :
  typed_WithMdxOptions h arg = true →
  record_at h arg = Some a →
  get_prop "components" a = VNull →
  (∃ el h', withMdx Mk arg h = Ok el h'
            ∧ passed_allowedElements h' el = Some VUndefined)
  ∧ (∃ el h', Part000.withMdx Mk arg h = Ok el h'
              ∧ passed_allowedElements h' el = Some VNull).
Proof.
  intros Hty Ha Hnull.
  destruct (wrapper_returns Mk _ _ Hty)
    as (a' & Ha' & (el & h' & Hrun & Hc) & (el2 & h2 & Hrun2 & Hc2)).
  assert (a' = a) as -> by congruence.
  apply composes_passed in Hc
    as (? & ? & ? & ? & allowed & ? & _ & _ & _ & _ & _ & _ & Hp & Hal & _).
  apply composes_passed in Hc2
    as (? & ? & ? & ? & allowed2 & ? & _ & _ & _ & _ & _ & _ & Hp2 & Hal2 & _).
  rewrite Hnull in Hal, Hal2. simpl in Hal, Hal2. subst allowed allowed2.
  split; [by exists el, h'|by exists el2, h2].
Qed.

Lemma revisions_differ_on_null_witness :
  (∃ el h', withMdx Markdown (VRef 1%positive) null_map_heap = Ok el h'
            ∧ passed_allowedElements h' el = Some VUndefined)
  ∧ (∃ el h', Part000.withMdx Markdown (VRef 1%positive) null_map_heap
              = Ok el h'
              ∧ passed_allowedElements h' el = Some VNull).
Proof.
  exact (revisions_differ_on_null Markdown (VRef 1%positive) null_map_heap
           null_map_props eq_refl eq_refl eq_refl).
Defined.

(** ** Objects the wrapper builds *)

Ltac fresh_solve :=
  first [ eassumption
        | (eapply lookup_weaken_None; [eassumption|sub_solve]) ].

Ltac built_fresh_post :=
  unfold built_fresh; eexists _, _, _, _, _;
  split; [reflexivity|];
  split; [lookup_solve|];
  split; [by rewrite !get_prop_set_prop|];
  split; [by rewrite !get_prop_set_prop|];
  split; [by rewrite !get_prop_set_prop|];
  repeat split; fresh_solve.

Lemma ReactMarkdownWithMdx_built_fresh Mk arg h :
  typed_WithMdxOptions h arg = true →
  wp (ReactMarkdownWithMdx Mk arg) h (built_fresh h).
Proof.
  intros (a & Ha & Hnd & Hc & Hr & Hm & Hh & Ho)%typed_WithMdxOptions_inv.
  apply options_is_record in Ho.
  unfold ReactMarkdownWithMdx.
  apply wp_bind. eapply wp_read_record; [eassumption|].
  step_alloc. step_list. step_list. step_alloc.
  apply wp_bind. unfold allowedComponents.
  destruct (truthy (get_prop "components" a)) eqn:Htruthy.
  - eapply (wp_Object_keys _ h);
      [sub_solve|by eapply truthy_optional_record|].
    intros lk hk ? ? ?. run_tail. built_fresh_post.
  - apply wp_ret. run_tail. built_fresh_post.
Qed.

Lemma Part000_ReactMarkdownWithMdx_built_fresh Mk arg h :
  typed_WithMdxOptions h arg = true →
  wp (Part000.ReactMarkdownWithMdx Mk arg) h (built_fresh h).
Proof.
  intros (a & Ha & Hnd & Hc & Hr & Hm & Hh & Ho)%typed_WithMdxOptions_inv.
  apply options_is_record in Ho.
  unfold Part000.ReactMarkdownWithMdx.
  apply wp_bind. eapply wp_read_record; [eassumption|].
  step_alloc. step_list. step_list. step_alloc.
  apply wp_bind. unfold Part000.allowedComponents.
  destruct (truthy (get_prop "components" a)) eqn:Htruthy.
  - eapply (wp_Object_keys _ h);
      [sub_solve|by eapply truthy_optional_record|].
    intros lk hk ? ? ?. run_tail. built_fresh_post.
  - apply wp_ret. run_tail. built_fresh_post.
Qed.

(** X3.  The wrapper never hands the renderer one of the caller's own
    objects in a merged position: the props object and the values under
    [remarkPlugins], [rehypePlugins] and [remarkRehypeOptions] are objects
    created by the run.  So the props object differs from the one received,
    and each merged value differs from the caller's value under that key
    whenever the caller gave an object there. *)
Theorem merged_values_are_new_objects Mk arg h a :
  typed_WithMdxOptions h arg = true →
  record_at h arg = Some a →
  let fresh_result (run : value → value → M ReactElement) :=
    ∃ el h' cfg,
      run Mk arg h = Ok el h'
      ∧ passed_props h' el = Some cfg
      ∧ built_fresh h el h'
      ∧ el_props el ≠ arg
      ∧ (∀ k, k ∈ ["remarkPlugins"; "rehypePlugins"; "remarkRehypeOptions"] →
              nullish (get_prop k a) = false →
              get_prop k cfg ≠ get_prop k a) in
  fresh_result withMdx ∧ fresh_result Part000.withMdx.
Proof.
  intros Hty Ha fresh_result.
  destruct (typed_WithMdxOptions_inv _ _ Hty)
    as (a' & Ha' & _ & _ & Hr & _ & Hh & Ho).
  assert (a' = a) as -> by congruence.
  assert (∀ el h', built_fresh h el h' →
            ∃ cfg, passed_props h' el = Some cfg
              ∧ el_props el ≠ arg
              ∧ (∀ k, k ∈ ["remarkPlugins"; "rehypePlugins";
                            "remarkRehypeOptions"] →
                      nullish (get_prop k a) = false →
                      get_prop k cfg ≠ get_prop k a)) as Hnew.
  { intros el h' (lc & lm & lr & lo & cfg & Hel & Hcfg & Hgm & Hgr & Hgo
                  & Hfc & Hfm & Hfr & Hfo).
    exists cfg. split; [unfold passed_props; by rewrite Hel; simpl; rewrite Hcfg|].
    split.
    - rewrite Hel. intros <-. simpl in Ha. by rewrite Hfc in Ha.
    - intros k Hk Hn.
      rewrite !elem_of_cons, elem_of_nil in Hk.
      destruct Hk as [->|[->|[->|[]]]].
      + rewrite Hgm. intros Heq. unfold optional in Hr. rewrite Hn, <- Heq in Hr.
        apply bool_decide_eq_true in Hr as [xs Hxs]. simpl in Hxs.
        by rewrite Hfm in Hxs.
      + rewrite Hgr. intros Heq. unfold optional in Hh. rewrite Hn, <- Heq in Hh.
        apply bool_decide_eq_true in Hh as [xs Hxs]. simpl in Hxs.
        by rewrite Hfr in Hxs.
      + rewrite Hgo. intros Heq. apply options_is_record in Ho.
        unfold optional in Ho. rewrite Hn, <- Heq in Ho.
        apply is_record_ref_inv in Ho as (fs & Hfs & _). simpl in Hfs.
        by rewrite Hfo in Hfs. }
  split.
  - destruct (wp_elim _ _ _ (ReactMarkdownWithMdx_built_fresh Mk arg h Hty))
      as (el & h' & Hrun & Hb).
    destruct (Hnew _ _ Hb) as (cfg & ? & ? & ?). by exists el, h', cfg.
  - destruct (wp_elim _ _ _ (Part000_ReactMarkdownWithMdx_built_fresh Mk arg h Hty))
      as (el & h' & Hrun & Hb).
    destruct (Hnew _ _ Hb) as (cfg & ? & ? & ?). by exists el, h', cfg.
Qed.

Lemma merged_values_are_new_objects_witness :
  ∃ el h' cfg,
    withMdx Markdown (VRef 1%positive) full_heap = Ok el h'
    ∧ passed_props h' el = Some cfg
    ∧ el_props el ≠ VRef 1%positive
    ∧ get_prop "remarkPlugins" cfg ≠ VRef 3%positive
    ∧ get_prop "rehypePlugins" cfg ≠ VRef 5%positive
    ∧ get_prop "remarkRehypeOptions" cfg ≠ VRef 6%positive.
Proof.
  destruct (merged_values_are_new_objects Markdown (VRef 1%positive) full_heap
              full_props eq_refl eq_refl)
    as [(el & h' & cfg & Hrun & Hp & _ & Harg & Hk) _].
  exists el, h', cfg. split; [exact Hrun|]. split; [exact Hp|].
  split; [exact Harg|].
  repeat split.
  - apply (Hk "remarkPlugins"); [|reflexivity].
    apply (bool_decide_unpack _). exact I.
  - apply (Hk "rehypePlugins"); [|reflexivity].
    apply (bool_decide_unpack _). exact I.
  - apply (Hk "remarkRehypeOptions"); [|reflexivity].
    apply (bool_decide_unpack _). exact I.
Defined.

(** ** Wrapping a wrapped component *)

Lemma get_config_remarkMdxPlugins a mp rp mo :
  get_prop "remarkMdxPlugins" (config_fields a mp rp mo) = VUndefined.
Proof.
  apply get_prop_notin. rewrite keys_config. intros [Hin|[Hout _]].
  - revert Hin. apply (bool_decide_unpack _). exact I.
  - apply Hout. apply (bool_decide_unpack _). exact I.
Qed.

Lemma elems_or_empty_at h v xs :
  array_at h v = Some xs → elems_or_empty h v = xs.
Proof. unfold elems_or_empty. by intros ->. Qed.

Lemma fields_or_empty_at h v fs :
  record_at h v = Some fs → fields_or_empty h v = fs.
Proof. unfold fields_or_empty. by intros ->. Qed.

(** Merging the required options into an already merged record changes no
    reading. *)
Lemma merged_options_stable (user : fields) (pt pt' : value) k :
  NoDup user.*1 →
  get_prop k (merge_fields [("passThrough", pt')]
                (merge_fields [("passThrough", pt)] user))
  = get_prop k (merge_fields [("passThrough", pt)] user).
Proof.
  intros Hnd.
  set (mo := merge_fields [("passThrough", pt)] user).
  assert (NoDup mo.*1) as Hmo by (apply NoDup_merge, NoDup_singleton).
  rewrite get_prop_merge by done.
  destruct (decide (k ∈ mo.*1)) as [|Hout]; [done|].
  rewrite (get_prop_notin _ _ Hout). simpl.
  destruct (decide ("passThrough" = k)) as [<-|]; [|done].
  exfalso. apply Hout. apply keys_merge. left. simpl. by left.
Qed.

(** X4.  Wrapping is not idempotent on the plugin lists.  When the element
    returned by one wrapper is rendered by a second wrapped component
    [withMdx(Mk)] (which then receives the props the first one built; only
    their fields are read), the renderer [Mk] underneath gets [remarkMdx]
    twice in front and [remarkUnravelMdx] twice, the second time at the very
    end, and two [rehypeMdxElements] entries in front of the caller's rehype
    plugins.  The options record and the forwarded props read the same as
    after one wrapper. *)
Theorem wrapping_twice_repeats_plugins Inner Mk arg h a :
  typed_WithMdxOptions h arg = true →
  record_at h arg = Some a →
  ∃ el1 h1 el2 h2 entry1 entry2 options1 options2 (o1 o2 cfg2 : fields),
    withMdx Inner arg h = Ok el1 h1
    ∧ withMdx Mk (el_props el1) h1 = Ok el2 h2
    ∧ passed_list "remarkPlugins" h2 el2 = Some
        ([remarkMdx; remarkMdx]
         ++ elems_or_empty h (get_prop "remarkPlugins" a)
         ++ [remarkUnravelMdx]
         ++ elems_or_empty h (get_prop "remarkMdxPlugins" a)
         ++ [remarkUnravelMdx])%list
    ∧ passed_list "rehypePlugins" h2 el2 = Some
        ([entry2; entry1]
         ++ elems_or_empty h (get_prop "rehypePlugins" a))%list
    ∧ array_at h2 entry1 = Some [rehypeMdxElements; options1]
    ∧ array_at h2 entry2 = Some [rehypeMdxElements; options2]
    ∧ passed_options h1 el1 = Some o1
    ∧ passed_options h2 el2 = Some o2
    ∧ (∀ k, get_prop k o2 = get_prop k o1)
    ∧ passed_props h2 el2 = Some cfg2
    ∧ (∀ k, k ∉ merged_props → get_prop k cfg2 = get_prop k a).
Proof.
  intros Hty Ha.
  destruct (typed_WithMdxOptions_inv _ _ Hty) as (a' & Ha' & Hnd & _ & _ & _ & _ & Ho).
  assert (a' = a) as -> by congruence.
  destruct (wrapper_returns Inner _ _ Hty)
    as (a' & Ha'' & (el1 & h1 & Hrun1 & Hc1) & _).
  assert (a' = a) as -> by congruence.
  pose proof (composes_typed _ _ _ _ _ _ _ Hty Ha Hc1) as Hty1.
  destruct Hc1 as (mp & rp & mo & entry1 & opts1 & allowed1 & pt1 & Hsub1 & _
                   & Hcfg1 & Hmp & Hrp & Hentry1 & _ & _ & Hmo & _).
  pose proof (get_config_remarkPlugins a mp rp mo) as Gm.
  pose proof (get_config_rehypePlugins a mp rp mo) as Gr.
  pose proof (get_config_remarkRehypeOptions a mp rp mo) as Go.
  pose proof (get_config_remarkMdxPlugins a mp rp mo) as Gx.
  pose proof (NoDup_config a mp rp mo Hnd) as Gnd.
  pose proof (λ k, get_config_forwarded a mp rp mo k Hnd) as Gf.
  remember (config_fields a mp rp mo) as cfg1 eqn:Hcfg1def.
  clear Hcfg1def.
  assert (typed_WithMdxOptions h1 (el_props el1) = true) as Hty1'.
  { unfold typed_WithMdxOptions. by rewrite Hty1, Hcfg1, Gx. }
  destruct (wrapper_returns Mk _ _ Hty1')
    as (a' & Ha1 & (el2 & h2 & Hrun2 & Hc2) & _).
  assert (a' = cfg1) as -> by congruence.
  destruct Hc2 as (mp2 & rp2 & mo2 & entry2 & opts2 & allowed2 & pt2 & Hsub2 & _
                   & Hcfg2 & Hmp2 & Hrp2 & Hentry2 & _ & _ & Hmo2 & _).
  rewrite Gm, Gx in Hmp2. rewrite Gr in Hrp2. rewrite Go in Hmo2.
  rewrite (elems_or_empty_at _ _ _ Hmp) in Hmp2.
  rewrite (elems_or_empty_at _ _ _ Hrp) in Hrp2.
  rewrite (fields_or_empty_at _ _ _ Hmo) in Hmo2.
  pose proof (get_config_remarkPlugins cfg1 mp2 rp2 mo2) as Gm2.
  pose proof (get_config_rehypePlugins cfg1 mp2 rp2 mo2) as Gr2.
  pose proof (get_config_remarkRehypeOptions cfg1 mp2 rp2 mo2) as Go2.
  pose proof (λ k, get_config_forwarded cfg1 mp2 rp2 mo2 k Gnd) as Gf2.
  remember (config_fields cfg1 mp2 rp2 mo2) as cfg2 eqn:Hcfg2def.
  clear Hcfg2def.
  exists el1, h1, el2, h2, entry1, entry2, opts1, opts2.
  eexists _, _, cfg2.
  split; [exact Hrun1|]. split; [exact Hrun2|].
  split.
  { unfold passed_list, passed_props. rewrite Hcfg2.
    unfold mbind, option_bind.
    rewrite Gm2, Hmp2. f_equal.
    change (elems_or_empty h1 VUndefined) with (@nil value).
    rewrite app_nil_r. by rewrite <- !app_assoc. }
  split.
  { unfold passed_list, passed_props. rewrite Hcfg2.
    unfold mbind, option_bind.
    by rewrite Gr2, Hrp2. }
  split; [by eapply array_at_weaken|]. split; [exact Hentry2|].
  split.
  { unfold passed_options, passed_props. rewrite Hcfg1.
    unfold mbind, option_bind.
    by rewrite Go. }
  split.
  { unfold passed_options, passed_props. rewrite Hcfg2.
    unfold mbind, option_bind.
    by rewrite Go2. }
  split.
  { intros k. apply merged_options_stable. by apply options_fields_NoDup. }
  split; [exact Hcfg2|].
  intros k Hk. rewrite Gf2 by done. by apply Gf.
Qed.

Lemma wrapping_twice_repeats_plugins_witness :
  ∃ el1 h1 el2 h2,
    withMdx (VFun "inner") (VRef 1%positive) sample_heap = Ok el1 h1
    ∧ withMdx Markdown (el_props el1) h1 = Ok el2 h2
    ∧ passed_list "remarkPlugins" h2 el2 = Some
        [remarkMdx; remarkMdx; VFun "customRemarkPlugin"; remarkUnravelMdx;
         remarkUnravelMdx].
Proof.
  destruct (wrapping_twice_repeats_plugins (VFun "inner") Markdown
              (VRef 1%positive) sample_heap sample_props eq_refl eq_refl)
    as (el1 & h1 & el2 & h2 & ? & ? & ? & ? & ? & ? & ? & Hrun1 & Hrun2
        & Hremark & _).
  exists el1, h1, el2, h2. split; [exact Hrun1|]. split; [exact Hrun2|].
  exact Hremark.
Defined.

(** ** The object [mdxComponent] validates *)

(** X5.  The object handed to the validator has exactly the node's property
    names and [children] as keys, each once: nothing else of the component
    props (in particular not [node]) reaches the validator unless it is an
    attribute of the node. *)
Theorem validated_object_keys Component validator arg h a :
  typed_ComponentProps h arg = true →
  record_at h arg = Some a →
  let properties := node_fields h (get_prop "node" a) in
  ∃ lc candidate,
    mdxComponent Component validator arg h
    = (props <- validator (VRef lc) ;; render_validated Component props)
        (<[lc := ORecord candidate]> h)
    ∧ (∀ k, k ∈ candidate.*1 ↔ k = "children" ∨ k ∈ properties.*1)
    ∧ NoDup candidate.*1
    ∧ ("node" ∉ properties.*1 → get_prop "node" candidate = VUndefined).
Proof.
  intros Hty Ha properties.
  exists (fresh (dom h)), (candidate_props h a).
  split; [by apply ReactMarkownComponent_run|].
  unfold candidate_props. fold properties.
  assert (∀ k, k ∈ (set_prop "children" (get_prop "children" a)
                      (merge_fields [] properties)).*1
               ↔ k = "children" ∨ k ∈ properties.*1) as Hkeys.
  { intros k. rewrite keys_set_prop, keys_merge.
    change (([] : fields).*1) with (@nil string). rewrite elem_of_nil. tauto. }
  split; [exact Hkeys|]. split.
  - apply NoDup_set_prop, NoDup_merge, NoDup_nil_2.
  - intros Hout. apply get_prop_notin. rewrite Hkeys.
    intros [?|?]; done.
Qed.

Lemma validated_object_keys_witness :
  ∃ lc candidate,
    mdxComponent CustomCard card_validator (VRef 1%positive) good_card
    = (props <- card_validator (VRef lc) ;;
       render_validated CustomCard props) (<[lc := ORecord candidate]> good_card)
    ∧ ("title" ∈ candidate.*1) ∧ ("node" ∉ candidate.*1).
Proof.
  destruct (validated_object_keys CustomCard card_validator (VRef 1%positive)
              good_card card_props eq_refl eq_refl)
    as (lc & candidate & Hrun & Hkeys & _).
  exists lc, candidate. split; [exact Hrun|]. split.
  - apply Hkeys. right. apply (bool_decide_unpack _). exact I.
  - rewrite Hkeys. apply (bool_decide_unpack _). exact I.
Defined.

(** ** The allowlist as a list *)

(** X6.  The allowlist names every component exactly once: it is a
    rearrangement of the map's keys and has no repetition, so it has as many
    entries as the map has components. *)
Theorem allowlist_lists_each_component_once Mk arg h a comps :
  typed_WithMdxOptions h arg = true →
  record_at h arg = Some a →
  record_at h (get_prop "components" a) = Some comps →
  ∃ el h' allowed names,
    withMdx Mk arg h = Ok el h'
    ∧ passed_allowedElements h' el = Some allowed
    ∧ array_at h' allowed = Some (VStr <$> names)
    ∧ names ≡ₚ comps.*1
    ∧ NoDup names
    ∧ length names = length comps.
Proof.
  intros Hty Ha Hcomps.
  destruct (typed_WithMdxOptions_inv _ _ Hty) as (a' & Ha' & _ & Hc & _).
  assert (a' = a) as -> by congruence.
  destruct (wrapper_returns Mk _ _ Hty)
    as (a' & Ha'' & (el & h' & Hrun & Hcmp) & _).
  assert (a' = a) as -> by congruence.
  assert (truthy (get_prop "components" a) = true) as Htruthy.
  { destruct (get_prop "components" a); done. }
  apply composes_passed in Hcmp
    as (? & ? & ? & ? & allowed & ? & _ & _ & _ & _ & _ & _ & Hp & Hal & _).
  rewrite Htruthy in Hal. rewrite (fields_or_empty_at _ _ _ Hcomps) in Hal.
  assert (NoDup comps.*1) as Hnd.
  { destruct (is_record_ref_inv _ _ (truthy_optional_record _ _ Hc Htruthy))
      as (fs & Hfs & Hfs_nd).
    by assert (fs = comps) as -> by congruence. }
  assert (own_keys comps ≡ₚ comps.*1) as Hperm.
  { unfold own_keys. by rewrite own_entries_perm. }
  exists el, h', allowed, (own_keys comps).
  repeat split; try done.
  - by rewrite Hperm.
  - by rewrite Hperm, length_fmap.
Qed.

Lemma allowlist_lists_each_component_once_witness :
  ∃ el h' allowed names,
    withMdx Markdown (VRef 1%positive) sample_heap = Ok el h'
    ∧ passed_allowedElements h' el = Some allowed
    ∧ array_at h' allowed = Some (VStr <$> names)
    ∧ length names = 2.
Proof.
  destruct (allowlist_lists_each_component_once Markdown (VRef 1%positive)
              sample_heap sample_props sample_components
              eq_refl eq_refl eq_refl)
    as (el & h' & allowed & names & Hrun & Hp & Hal & _ & _ & Hlen).
  exists el, h', allowed, names. split; [exact Hrun|]. split; [exact Hp|].
  split; [exact Hal|exact Hlen].
Defined.

(** ** The test suite's rehype plugin *)

Lemma set_prop_same k v (fs : fields) :
  k ∈ fs.*1 → get_prop k fs = v → set_prop k v fs = fs.
Proof.
  induction fs as [|[k0 v0] fs IH]; simpl.
  - by intros ?%elem_of_nil.
  - destruct (decide (k0 = k)) as [->|Hne].
    + by intros _ ->.
    + rewrite elem_of_cons. intros [?|Hin] Hget; [congruence|].
      by rewrite IH.
Qed.

Lemma classed_after_visit tag (ps : fields) cs :
  classed (HElement tag
             (if decide (tag = "h1")
              then set_prop "className" (VStr "custom-heading") ps else ps)
             cs).
Proof.
  simpl. intros ->. rewrite decide_True by done. split.
  - apply keys_set_prop. by left.
  - by rewrite get_prop_set_prop, decide_True.
Qed.

Lemma Forall_nodes_children (Q : hast → Prop) (f : hast → hast) cs :
  Forall (λ c, Forall Q (nodes (f c))) cs →
  Forall Q (flat_map nodes (map f cs)).
Proof.
  induction 1 as [|c cs Hc _ IH]; simpl; [constructor|].
  by apply Forall_app.
Qed.

Lemma visit_children_fixed cs :
  Forall (λ c, Forall classed (nodes c) → visitNode c = c) cs →
  Forall classed (flat_map nodes cs) → map visitNode cs = cs.
Proof.
  induction 1 as [|c cs Hc _ IH]; simpl; [done|].
  intros [Hhd Htl]%Forall_app. by rewrite Hc, IH.
Qed.

Lemma set_prop_idem k v (fs : fields) :
  set_prop k v (set_prop k v fs) = set_prop k v fs.
Proof.
  apply set_prop_same.
  - apply keys_set_prop. by left.
  - by rewrite get_prop_set_prop, decide_True.
Qed.

Lemma visit_children_idem cs :
  Forall (λ c, visitNode (visitNode c) = visitNode c) cs →
  map visitNode (map visitNode cs) = map visitNode cs.
Proof.
  induction 1 as [|c cs Hc _ IH]; simpl; [done|]. by rewrite Hc, IH.
Qed.

Lemma same_children cs :
  Forall (λ c, Forall2 same_but_class (nodes c) (nodes (visitNode c))) cs →
  Forall2 same_but_class (flat_map nodes cs)
    (flat_map nodes (map visitNode cs)).
Proof.
  induction 1 as [|c cs Hc _ IH]; simpl; [constructor|].
  by apply Forall2_app.
Qed.

(** X7.  After [customRehypePlugin] every [h1] element of the tree, at any
    depth, has the own property [className] with value ["custom-heading"]. *)
Theorem plugin_classes_every_h1 tree :
  Forall classed (nodes (customRehypePlugin tree)).
Proof.
  unfold customRehypePlugin.
  induction tree as [cs IH|tag ps cs IH|s|s|] using hast_forall_ind; simpl.
  - constructor; [done|]. by apply Forall_nodes_children.
  - constructor; [apply classed_after_visit|]. by apply Forall_nodes_children.
  - by constructor.
  - by constructor.
  - by constructor.
Qed.

(** X8.  [customRehypePlugin] leaves a tree as it is when every [h1] in it
    already has that class; a tree without [h1] is such a tree. *)
Theorem plugin_fixes_classed_trees tree :
  Forall classed (nodes tree) → customRehypePlugin tree = tree.
Proof.
  unfold customRehypePlugin.
  induction tree as [cs IH|tag ps cs IH|s|s|] using hast_forall_ind; simpl;
    try done.
  - intros [_ Hcs]%Forall_cons. by rewrite visit_children_fixed.
  - intros [Hn Hcs]%Forall_cons. rewrite visit_children_fixed by done.
    destruct (decide (tag = "h1")) as [->|]; [|done].
    destruct Hn as [Hin Hget]; [done|]. by rewrite set_prop_same.
Qed.

Lemma plugin_fixes_classed_trees_witness :
  customRehypePlugin classed_tree = classed_tree.
Proof.
  apply plugin_fixes_classed_trees. simpl.
  repeat constructor; done.
Defined.

(** X9.  Running [customRehypePlugin] twice gives the same tree as running
    it once. *)
Theorem plugin_idempotent tree :
  customRehypePlugin (customRehypePlugin tree) = customRehypePlugin tree.
Proof.
  unfold customRehypePlugin.
  induction tree as [cs IH|tag ps cs IH|s|s|] using hast_forall_ind; simpl;
    try done.
  - by rewrite visit_children_idem.
  - rewrite visit_children_idem by done.
    destruct (decide (tag = "h1")) as [->|]; [|done].
    by rewrite set_prop_idem.
Qed.

(** X10.  [customRehypePlugin] keeps the document: the same nodes in the
    same order, with the same tags, text and numbers of children; the
    properties of every element other than [h1] are untouched, and on an
    [h1] every property other than [className] reads as before. *)
Theorem plugin_preserves_document tree :
  Forall2 same_but_class (nodes tree) (nodes (customRehypePlugin tree)).
Proof.
  unfold customRehypePlugin.
  induction tree as [cs IH|tag ps cs IH|s|s|] using hast_forall_ind; simpl.
  - constructor; [|by apply same_children]. simpl. by rewrite length_map.
  - constructor; [|by apply same_children]. simpl.
    split; [done|]. split; [by rewrite length_map|].
    destruct (decide (tag = "h1")) as [->|Hne].
    + split; [|done]. intros k [?|Hk]; [done|].
      by rewrite get_prop_set_prop, decide_False.
    + by split.
  - by repeat constructor.
  - by repeat constructor.
  - by repeat constructor.
Qed.

Example customRehypePlugin_sample :
  customRehypePlugin sample_tree
  = HRoot [HElement "h1" [("id", VStr "top");
                           ("className", VStr "custom-heading")]
             [HText "Custom Heading"];
           HElement "p" []
             [HText "body";
              HElement "h1" [("className", VStr "custom-heading")] []]].
Proof. reflexivity. Qed.

(** ** Allowlist and components map, as the renderer gets them *)

(** X11.  The allowlist and the components map the renderer receives name
    the same tags: the renderer is given the caller's components object
    itself, unchanged, and a tag is in the allowlist exactly when that object
    has a renderer under that name. *)
Theorem allowlist_matches_forwarded_components Mk arg h a comps :
  typed_WithMdxOptions h arg = true →
  record_at h arg = Some a →
  record_at h (get_prop "components" a) = Some comps →
  let coherent (run : value → value → M ReactElement) :=
    ∃ el h' cfg allowed names,
      run Mk arg h = Ok el h'
      ∧ passed_props h' el = Some cfg
      ∧ get_prop "components" cfg = get_prop "components" a
      ∧ record_at h' (get_prop "components" cfg) = Some comps
      ∧ passed_allowedElements h' el = Some allowed
      ∧ array_at h' allowed = Some (VStr <$> names)
      ∧ (∀ n, n ∈ names ↔ n ∈ comps.*1) in
  coherent withMdx ∧ coherent Part000.withMdx.
Proof.
  intros Hty Ha Hcomps coherent.
  destruct (wrapper_returns Mk _ _ Hty)
    as (a' & Ha' & (el & h' & Hrun & Hc) & (el2 & h2 & Hrun2 & Hc2)).
  assert (a' = a) as -> by congruence.
  assert (truthy (get_prop "components" a) = true) as Htruthy.
  { destruct (get_prop "components" a); done. }
  assert (∀ fb (el : ReactElement) h',
            composes fb h a Mk el h' →
            ∃ cfg allowed names,
              passed_props h' el = Some cfg
              ∧ get_prop "components" cfg = get_prop "components" a
              ∧ record_at h' (get_prop "components" cfg) = Some comps
              ∧ passed_allowedElements h' el = Some allowed
              ∧ array_at h' allowed = Some (VStr <$> names)
              ∧ (∀ n, n ∈ names ↔ n ∈ comps.*1)) as Hco.
  { intros fb el0 h0 (mp & rp & mo & ? & allowed & ? & Hsub & _ & Hcfg & _ & _
                      & _ & Hp & Hal & _)%composes_passed.
    rewrite Htruthy, (fields_or_empty_at _ _ _ Hcomps) in Hal.
    exists (config_fields a mp rp mo), allowed, (own_keys comps).
    rewrite get_config_components.
    split; [exact Hcfg|]. split; [done|].
    split; [by eapply record_at_weaken|].
    split; [done|]. split; [done|]. intros n. apply own_keys_elem. }
  split.
  - destruct (Hco _ _ _ Hc) as (cfg & allowed & names & ?).
    by exists el, h', cfg, allowed, names.
  - destruct (Hco _ _ _ Hc2) as (cfg & allowed & names & ?).
    by exists el2, h2, cfg, allowed, names.
Qed.

Lemma allowlist_matches_forwarded_components_witness :
  ∃ el h' cfg allowed names,
    withMdx Markdown (VRef 1%positive) sample_heap = Ok el h'
    ∧ passed_props h' el = Some cfg
    ∧ record_at h' (get_prop "components" cfg) = Some sample_components
    ∧ passed_allowedElements h' el = Some allowed
    ∧ array_at h' allowed = Some (VStr <$> names)
    ∧ ("TestAlert" ∈ names).
Proof.
  destruct (allowlist_matches_forwarded_components Markdown (VRef 1%positive)
              sample_heap sample_props sample_components
              eq_refl eq_refl eq_refl)
    as [(el & h' & cfg & allowed & names & Hrun & Hp & _ & Hc & Ha & Hal & Hn) _].
  exists el, h', cfg, allowed, names. split; [exact Hrun|]. split; [exact Hp|].
  split; [exact Hc|]. split; [exact Ha|]. split; [exact Hal|].
  apply Hn. apply (bool_decide_unpack _). exact I.
Defined.
